(** * pdftool: the PDF split and merge handlers of [server.js]

    A shallow embedding of the [/api/merge], [/api/split] and
    [/api/security] request handlers, of the sweep [cleanupOldFiles]
    and of the JavaScript, Node and pdf-lib primitives they call,
    followed by the properties of the page-range engine, of the
    watermark and of the sweep.

    Conventions of the embedding.
    - A JavaScript string is a [string] whose characters are code units
      below 256.  A request field is a [value]: a text, or what multer
      makes of a field that is sent more than once or with brackets in
      its name (an array or an object).
    - A number the handlers compute with is an integer or NaN: an
      [option Z], [None] being NaN.  The numbers of JavaScript are
      doubles: the counter and the bound of the size loop are rounded
      to 53 bits ([JS.to_number]), so the counter stops growing at
      2^53 and a larger bound is never reached.  Elsewhere the numbers
      are compared with page counts only, which rounding does not
      change.  A length on a page and a modification time are
      rationals.
    - A PDF document is the sequence of its pages; a page is an opaque
      value of the type [Page].  Serialising a document and loading the
      bytes again gives the same pages.  As in pdf-lib, [save] puts a
      blank page into a document without pages, [copyPages] throws on
      an index that is not one of the source's, and bytes that are a
      bare PDF header are loaded but have no page tree to read.
    - What the libraries leave open is a parameter ([Libraries]): the
      blank page, and the order in which the archive takes up the
      files appended to it, which is some permutation of them.  The
      order in which a directory is listed is a parameter of the sweep.
    - [await] is sequencing: a handler, and the sweep, runs alone on
      the file system.  The directories [uploads] and [downloads]
      exist, and writing a file always succeeds.
    - An exception is an [outcome]; the side effects made before it
      stay in the [world], as they do under [try]/[catch].
    - A [for] loop over numbers carries fuel, a bound on its turns.
      The loops of the handlers are given more than they can take,
      except for the size loop with a bound above 2^53, which no fuel
      satisfies ([count_loop_never_ends]). *)

From Stdlib Require Import ZArith String Ascii DecimalString DecimalPos DecimalZ Lia.
From Stdlib Require QArith Lqa.
From stdpp Require Import base list gmap strings.

Open Scope string_scope.
Open Scope list_scope.
Open Scope Z_scope.

(** ** JavaScript primitives *)

Module JS.

(** WhiteSpace and LineTerminator code units below 256: TAB, LF, VT, FF,
    CR, SP and NBSP.  [String.prototype.trim] and [parseInt] strip the
    same set. *)
Definition is_white_space (c : ascii) : bool :=
  let n := nat_of_ascii c in
  ((9 <=? n) && (n <=? 13))%nat || (n =? 32)%nat || (n =? 160)%nat.

Fixpoint trimStart (s : string) : string :=
  match s with
  | EmptyString => EmptyString
  | String c s' => if is_white_space c then trimStart s' else s
  end.

Fixpoint trimEnd (s : string) : string :=
  match s with
  | EmptyString => EmptyString
  | String c s' =>
      match trimEnd s' with
      | EmptyString => if is_white_space c then EmptyString else String c EmptyString
      | t => String c t
      end
  end.

(** [s.trim()] *)
Definition trim (s : string) : string := trimEnd (trimStart s).

(** [s.includes(c)] for a one-character search string. *)
Fixpoint includes (c : ascii) (s : string) : bool :=
  match s with
  | EmptyString => false
  | String d s' => Ascii.eqb d c || includes c s'
  end.

(** [s.split(sep)] for a one-character separator: never the empty
    array, [''.split(',')] is [['']]. *)
Fixpoint split (sep : ascii) (s : string) : list string :=
  match s with
  | EmptyString => [EmptyString]
  | String c s' =>
      if Ascii.eqb c sep then EmptyString :: split sep s'
      else match split sep s' with
           | t :: ts => String c t :: ts
           | [] => [String c EmptyString]
           end
  end.

(** The value of a digit in [radix], if it is one. *)
Definition digit_value (radix : Z) (c : ascii) : option Z :=
  let n := Z.of_nat (nat_of_ascii c) in
  let v :=
    if (48 <=? n) && (n <=? 57) then Some (n - 48)
    else if (97 <=? n) && (n <=? 122) then Some (n - 87)
    else if (65 <=? n) && (n <=? 90) then Some (n - 55)
    else None in
  match v with
  | Some d => if d <? radix then Some d else None
  | None => None
  end.

(** The longest prefix of digits of [radix], as their values. *)
Fixpoint digits_prefix (radix : Z) (s : string) : list Z :=
  match s with
  | EmptyString => []
  | String c s' =>
      match digit_value radix c with
      | Some d => d :: digits_prefix radix s'
      | None => []
      end
  end.

Definition strip_sign (s : string) : Z * string :=
  match s with
  | String "-" r => (-1, r)
  | String "+" r => (1, r)
  | _ => (1, s)
  end.

Definition strip_hex_prefix (s : string) : Z * string :=
  match s with
  | String "0" (String "x" r) => (16, r)
  | String "0" (String "X" r) => (16, r)
  | _ => (10, s)
  end.

(** [parseInt(s)] with no radix argument: leading white space, a sign,
    a [0x] prefix, then the longest run of digits; NaN when that run is
    empty.  Whatever follows the digits is ignored. *)
Definition parseInt (s : string) : option Z :=
  let '(sign, s1) := strip_sign (trimStart s) in
  let '(radix, s2) := strip_hex_prefix s1 in
  match digits_prefix radix s2 with
  | [] => None
  | ds => Some (sign * foldl (fun acc d => acc * radix + d) 0 ds)
  end.

(** [x - 1] on a number that may be NaN. *)
Definition minus_one (x : option Z) : option Z := (fun n => n - 1) <$> x.

(** The number an integer becomes.  Up to [2^53] every integer is a
    number; a larger one is rounded to 53 significant bits, to the
    nearest number and to the even one of two that are as near:
    [2^53 + 1] becomes [2^53]. *)
Definition to_number (n : Z) : Z :=
  let m := Z.abs n in
  let k := Z.log2 m - 52 in
  if k <=? 0 then n
  else
    let q := Z.shiftr m k in
    let r := m - Z.shiftl q k in
    let half := Z.shiftl 1 (k - 1) in
    let q' := if (half <? r) || ((r =? half) && Z.odd q) then q + 1 else q in
    Z.sgn n * Z.shiftl q' k.

(** From [2^1024 - 2^970] on the nearest number is Infinity. *)
Definition is_infinite (n : Z) : bool := 2 ^ 1024 - 2 ^ 970 <=? Z.abs n.

(** Truthiness of a request field, and [v === lit] for a request field
    and a string literal; [undefined] and [''] are falsy. *)
Class Field (A : Type) : Type := {
  truthy : option A -> bool;
  strict_eq : option A -> string -> bool
}.

(** A field that can only be text or missing. *)
#[global] Instance string_field : Field string := {|
  truthy v := match v with
              | Some (String _ _) => true
              | _ => false
              end;
  strict_eq v lit := match v with
                     | Some s => String.eqb s lit
                     | None => false
                     end
|}.

(** An integer inside a template literal. *)
Definition num_to_string (n : Z) : string :=
  NilZero.string_of_int (Z.to_int n).

(** [path.join(dir, name)] for a one-segment directory and a plain name. *)
Definition path_join (dir name : string) : string := dir +:+ "/" +:+ name.

End JS.

(** ** The runtime: exceptions, the file system and the clock *)

(** What a [catch] can receive. *)
Inductive error : Type :=
  | ENOENT (path : string)        (* fs: no such file *)
  | EISDIR (path : string)        (* fs: unlink of a directory (EPERM on some systems) *)
  | InvalidPDF                    (* PDFDocument.load: no PDF header in the bytes *)
  | TypeError (property : string) (* reading or calling [property] where there is none *).

Inductive outcome (A : Type) : Type :=
  | Returns (a : A)
  | Throws (e : error)
  | OutOfFuel.

Arguments Returns {A} a.
Arguments Throws {A} e.
Arguments OutOfFuel {A}.

(** The body of an HTTP response. *)
Inductive response : Type :=
  | Success (fileName downloadUrl message : string) (* res.json({ success: true, ... }) *)
  | BadRequest (message : string)                   (* res.status(400).json({ error }) *)
  | ServerError (e : error)                         (* res.status(500).json({ error: error.message }) *).

(** A text field of a multipart request as multer hands it over: the
    text of a field that was sent once, or the array or object that
    multer builds for a field name that is repeated or carries brackets.
    Of such a value the handlers see only that it is truthy, that it is
    no string and has no string methods, and what converting it to a
    string gives: the joined elements of an array, [None] where the
    conversion throws (an object, which multer makes without prototype). *)
Inductive value : Type :=
  | Text (s : string)
  | Structured (to_string : option string).

Coercion Text : string >-> value.

(** [Some "pages"] is a field holding a text. *)
Arguments Some {A} & a.

#[global] Instance value_field : JS.Field value := {|
  JS.truthy v := match v with
                 | Some (Text (String _ _)) | Some (Structured _) => true
                 | _ => false
                 end;
  JS.strict_eq v lit := match v with
                        | Some (Text s) => String.eqb s lit
                        | _ => false
                        end
|}.

(** [String(v)], as [parseInt(v)] applies it. *)
Definition ToString (v : value) : error + string :=
  match v with
  | Text s => inr s
  | Structured (Some s) => inr s
  | Structured None => inl (TypeError "toString")
  end.


(** A file as multer stored it: [destination] is [uploads]. *)
Record multer_file : Type := MulterFile { filename : string; originalname : string }.

Definition path (file : multer_file) : string := JS.path_join "uploads" (filename file).

(** What the libraries decide for themselves.  pdf-lib: the page that
    [doc.addPage()] makes, empty and of the default size, which [save]
    puts into a document without pages.  archiver: the order in which
    the files queued with [archive.file] enter the archive; their stats
    run side by side, so it is some permutation of the queue. *)
Class Libraries (Page : Type) : Type := {
  blankPage : Page;
  archive_order : list string -> list string;
  archive_order_perm (names : list string) : archive_order names ≡ₚ names
}.

Section Server.

Context {Page : Type} `{!Libraries Page}.

(** The contents of a file as the libraries see them: a PDF with its
    pages; a PDF header with nothing behind it, which pdf-lib loads
    into a document without catalog; a zip archive of named entries;
    bytes in which pdf-lib finds no PDF header. *)
#[warnings="-register-all"]
Inductive blob : Type :=
  | PdfBytes (pages : list Page)
  | HeaderBytes
  | ZipBytes (entries : list (string * blob))
  | RawBytes (raw : string).

(** A document in memory: the catalog leads to the pages. *)
Inductive document : Type :=
  | Catalog (pages : list Page)
  | NoCatalog.

(** The file system, and the clock as the readings [Date.now()] will
    give, in order. *)
Record world : Type := World {
  files : gmap string blob;
  clock : nat -> Z;
  ticks : nat
}.

Definition io (A : Type) : Type := world -> outcome A * world.

Definition ret {A} (a : A) : io A := fun w => (Returns a, w).

Definition throw {A} (e : error) : io A := fun w => (Throws e, w).

Definition bind {A B} (m : io A) (k : A -> io B) : io B :=
  fun w =>
    match m w with
    | (Returns a, w') => k a w'
    | (Throws e, w') => (Throws e, w')
    | (OutOfFuel, w') => (OutOfFuel, w')
    end.

Notation "'let*' x := m 'in' k" := (bind m (fun x => k))
  (at level 10, x pattern, m at level 100, k at level 200).

(** [try { body } catch (error) { handler }] *)
Definition try_catch {A} (body : io A) (handler : error -> io A) : io A :=
  fun w =>
    match body w with
    | (Throws e, w') => handler e w'
    | r => r
    end.

(** [for (let p = init; cond(p); p++) body], the variables the body
    updates threaded as [acc]. *)
Fixpoint for_loop {A} (fuel : nat) (cond : Z -> bool) (body : Z -> A -> io A)
    (p : Z) (acc : A) : io A :=
  match fuel with
  | O => fun w => (OutOfFuel, w)
  | S fuel' =>
      if cond p then
        let* acc' := body p acc in
        for_loop fuel' cond body (p + 1) acc'
      else ret acc
  end.

(** [for (let i = init; cond(i); i++) body] for a bound the request
    gives: the counter is a number, and [i++] on [2^53] gives [2^53]. *)
Fixpoint count_loop {A} (fuel : nat) (cond : Z -> bool) (body : Z -> A -> io A)
    (i : Z) (acc : A) : io A :=
  match fuel with
  | O => fun w => (OutOfFuel, w)
  | S fuel' =>
      if cond i then
        let* acc' := body i acc in
        count_loop fuel' cond body (JS.to_number (i + 1)) acc'
      else ret acc
  end.

(** [for (const x of xs) body] *)
Fixpoint for_of {A B} (xs : list B) (body : B -> A -> io A) (acc : A) : io A :=
  match xs with
  | [] => ret acc
  | x :: xs' => let* acc' := body x acc in for_of xs' body acc'
  end.

Definition Date_now : io Z :=
  fun w => (Returns (clock w (ticks w)), World (files w) (clock w) (S (ticks w))).

Definition readFile (p : string) : io blob :=
  fun w =>
    match files w !! p with
    | Some b => (Returns b, w)
    | None => (Throws (ENOENT p), w)
    end.

Definition writeFile (p : string) (b : blob) : io unit :=
  fun w => (Returns tt, World (<[p := b]> (files w)) (clock w) (ticks w)).

Definition unlink (p : string) : io unit :=
  fun w =>
    match files w !! p with
    | Some _ => (Returns tt, World (delete p (files w)) (clock w) (ticks w))
    | None => (Throws (ENOENT p), w)
    end.

(** [fs.mkdir(dir, { recursive: true })]: the directory is there. *)
Definition mkdir (dir : string) : io unit := ret tt.

(** ** pdf-lib *)

Definition PDFDocument_create : io (list Page) := ret [].

(** [PDFDocument.load(bytes)] *)
Definition PDFDocument_load (bytes : blob) : io document :=
  match bytes with
  | PdfBytes pages => ret (Catalog pages)
  | HeaderBytes => ret NoCatalog
  | _ => throw InvalidPDF
  end.

(** The first look at the pages of a loaded document, by
    [getPageCount], [getPageIndices] or [getPages]: they are reached
    through [this.catalog.Pages()]. *)
Definition getPages (doc : document) : io (list Page) :=
  match doc with
  | Catalog pages => ret pages
  | NoCatalog => throw (TypeError "Pages")
  end.

Definition addPage (doc : list Page) (page : Page) : list Page := doc ++ [page].

(** What [save] writes: [if (addDefaultPage && this.getPageCount() === 0)
    this.addPage()], and [addDefaultPage] is true when it is not given. *)
Definition with_default_page (doc : list Page) : list Page :=
  match doc with
  | [] => addPage doc blankPage
  | _ => doc
  end.

Definition save (doc : list Page) : io blob := ret (PdfBytes (with_default_page doc)).

Definition getPageCount (doc : list Page) : Z := Z.of_nat (length doc).

Definition getPageIndices (doc : list Page) : list Z := seqZ 0 (getPageCount doc).

(** [srcPages[idx]]: undefined outside the array. *)
Definition page_at (srcPages : list Page) (idx : Z) : option Page :=
  if idx <? 0 then None else srcPages !! Z.to_nat idx.

(** [dst.copyPages(srcDoc, indices)]: it reads [srcPages[idx].node] for
    each index, so an index outside the source throws. *)
Fixpoint copyPages (srcDoc : list Page) (indices : list Z) : io (list Page) :=
  match indices with
  | [] => ret []
  | idx :: rest =>
      match page_at srcDoc idx with
      | Some page => let* pages := copyPages srcDoc rest in ret (page :: pages)
      | None => throw (TypeError "node")
      end
  end.

(** [const [copiedPage] = await newPdf.copyPages(pdfDoc, [p]);
     newPdf.addPage(copiedPage);] *)
Definition copy_one (pdfDoc : list Page) (p : Z) (newPdf : list Page) : io (list Page) :=
  let* copied := copyPages pdfDoc [p] in
  match copied with
  | copiedPage :: _ => ret (addPage newPdf copiedPage)
  | [] => throw (TypeError "node")
  end.

(** ** The merge endpoint: [app.post('/api/merge', ...)] *)

(** One turn of [for (const file of files)]. *)
Definition merge_file (file : multer_file) (mergedPdf : list Page) : io (list Page) :=
  let* pdfBytes := readFile (path file) in
  let* pdf := PDFDocument_load pdfBytes in
  let* pdf := getPages pdf in (* [pdf.getPageIndices()]; from here [pdf] is its pages *)
  let* copiedPages := copyPages pdf (getPageIndices pdf) in
  let mergedPdf := foldl addPage mergedPdf copiedPages in
  let* _ := unlink (path file) in
  ret mergedPdf.

(** [req.files] is [None] when multer left it undefined. *)
Definition merge_handler (req_files : option (list multer_file)) : io response :=
  try_catch
    (match req_files with
     | None => ret (BadRequest "At least 2 files required for merging")
     | Some files =>
         if Z.of_nat (length files) <? 2
         then ret (BadRequest "At least 2 files required for merging")
         else
           let* mergedPdf := PDFDocument_create in
           let* mergedPdf := for_of files merge_file mergedPdf in
           let* now := Date_now in
           let outputFilename := "merged-" +:+ JS.num_to_string now +:+ ".pdf" in
           let outputPath := JS.path_join "downloads" outputFilename in
           let* _ := mkdir "downloads" in
           let* mergedPdfBytes := save mergedPdf in
           let* _ := writeFile outputPath mergedPdfBytes in
           ret (Success outputFilename
                  ("/downloads/" +:+ outputFilename)
                  ("Merged " +:+ JS.num_to_string (Z.of_nat (length files))
                     +:+ " PDFs successfully"))
     end)
    (fun error => ret (ServerError error)).

(** ** The split endpoint: [app.post('/api/split', ...)] *)

Record split_body : Type := SplitBody {
  splitOption : option value;
  pageRanges : option value;
  numParts : option value
}.

(** [for (let p = start; p <= end && p < totalPages; p++)]: a NaN bound
    makes the first test false. *)
Definition range_loop_cond (end_ totalPages : Z) (p : Z) : bool :=
  (p <=? end_) && (p <? totalPages).

Definition copy_range (pdfDoc : list Page) (totalPages : Z) (start end_ : option Z)
    (newPdf : list Page) : io (list Page) :=
  match start, end_ with
  | Some s, Some e =>
      for_loop (S (Z.to_nat (totalPages - s))) (range_loop_cond e totalPages)
        (copy_one pdfDoc) s newPdf
  | _, _ => ret newPdf
  end.

(** [if (pageNum < totalPages) { ... }] *)
Definition copy_single (pdfDoc : list Page) (totalPages : Z) (pageNum : option Z)
    (newPdf : list Page) : io (list Page) :=
  match pageNum with
  | Some n => if n <? totalPages then copy_one pdfDoc n newPdf else ret newPdf
  | None => ret newPdf
  end.

(** [const [start, end] = range.split('-').map(n => parseInt(n.trim()) - 1)]:
    a missing element is undefined, which compares like NaN. *)
Definition range_bounds (range : string) : option Z * option Z :=
  let nums := (fun n => JS.minus_one (JS.parseInt (JS.trim n))) <$> JS.split "-" range in
  (default None (nums !! 0%nat), default None (nums !! 1%nat)).

(** The pages of one part of the range mode, copied into [newPdf]. *)
Definition copy_token (pdfDoc : list Page) (totalPages : Z) (range : string)
    (newPdf : list Page) : io (list Page) :=
  if JS.includes "-" range then
    let '(start, end_) := range_bounds range in
    copy_range pdfDoc totalPages start end_ newPdf
  else
    let pageNum := JS.minus_one (JS.parseInt range) in
    copy_single pdfDoc totalPages pageNum newPdf.

(** The tail of both part loops: name the part, save it, record it. *)
Definition write_part (i : Z) (newPdf : list Page) (outputFiles : list string)
    : io (list string) :=
  let* now := Date_now in
  let filename :=
    "split-part" +:+ JS.num_to_string (i + 1) +:+ "-" +:+ JS.num_to_string now +:+ ".pdf" in
  let outputPath := JS.path_join "downloads" filename in
  let* pdfBytesOut := save newPdf in
  let* _ := writeFile outputPath pdfBytesOut in
  ret (outputFiles ++ [filename]).

(** The body of [for (let i = 0; i < ranges.length; i++)]. *)
Definition range_part (pdfDoc : list Page) (totalPages : Z) (ranges : list string)
    (i : Z) (outputFiles : list string) : io (list string) :=
  let* newPdf := PDFDocument_create in
  match ranges !! Z.to_nat i with
  | None => throw (TypeError "includes")
  | Some range =>
      let* newPdf := copy_token pdfDoc totalPages range newPdf in
      write_part i newPdf outputFiles
  end.

Definition split_pages (pdfDoc : list Page) (totalPages : Z) (pageRanges : string)
    (outputFiles : list string) : io (list string) :=
  let ranges := JS.trim <$> JS.split "," pageRanges in
  let n := Z.of_nat (length ranges) in
  for_loop (S (Z.to_nat n)) (fun i => i <? n)
    (range_part pdfDoc totalPages ranges) 0 outputFiles.

(** [Math.ceil(totalPages / parts)].  For [parts = 0] JavaScript has
    Infinity or NaN here; the loop over the parts then runs no turn and
    never reads the value. *)
Definition Math_ceil_div (totalPages parts : Z) : Z := - ((- totalPages) / parts).

(** The body of [for (let i = 0; i < parts; i++)]. *)
Definition size_part (pdfDoc : list Page) (totalPages pagesPerPart : Z)
    (i : Z) (outputFiles : list string) : io (list string) :=
  let* newPdf := PDFDocument_create in
  let startPage := i * pagesPerPart in
  let endPage := Z.min (startPage + pagesPerPart) totalPages in
  let* newPdf :=
    for_loop (S (Z.to_nat (endPage - startPage))) (fun p => p <? endPage)
      (copy_one pdfDoc) startPage newPdf in
  write_part i newPdf outputFiles.

Definition split_size (pdfDoc : list Page) (totalPages : Z) (numParts : string)
    (outputFiles : list string) : io (list string) :=
  match JS.parseInt numParts with
  | None => ret outputFiles (* i < NaN is false *)
  | Some n =>
      let parts := JS.to_number n in
      let pagesPerPart :=
        if JS.is_infinite n then 0 else Math_ceil_div totalPages parts in
      count_loop (S (Z.to_nat parts)) (fun i => i <? parts)
        (size_part pdfDoc totalPages pagesPerPart) 0 outputFiles
  end.

(** [archive.file(path.join('downloads', filename), { name: filename })]
    for each part, then [archive.finalize()] into [zipPath]: the files
    enter the archive in the order archiver takes them up. *)
Definition archive_file (filename : string) (entries : list (string * blob))
    : io (list (string * blob)) :=
  let* bytes := readFile (JS.path_join "downloads" filename) in
  ret (entries ++ [(filename, bytes)]).

(** The two modes, [if (splitOption === 'pages' && pageRanges) ... else if
    (splitOption === 'size' && numParts) ...]: any other request makes
    no part. *)
Definition split_parts (body : split_body) (pdfDoc : list Page) (totalPages : Z)
    (outputFiles : list string) : io (list string) :=
  if JS.strict_eq (splitOption body) "pages" && JS.truthy (pageRanges body)
  then
    match pageRanges body with
    | Some (Text pageRanges) => split_pages pdfDoc totalPages pageRanges outputFiles
    | _ => throw (TypeError "split") (* [pageRanges.split] is not a function *)
    end
  else if JS.strict_eq (splitOption body) "size" && JS.truthy (numParts body)
  then
    match ToString (default (Text "") (numParts body)) with
    | inr numParts => split_size pdfDoc totalPages numParts outputFiles
    | inl e => throw e
    end
  else ret outputFiles.

(** The end of the handler: drop the upload, zip the parts, answer. *)
Definition send_archive (file : multer_file) (outputFiles : list string) : io response :=
  let* _ := unlink (path file) in
  let* now := Date_now in
  let zipFilename := "split-files-" +:+ JS.num_to_string now +:+ ".zip" in
  let zipPath := JS.path_join "downloads" zipFilename in
  let* entries := for_of (archive_order outputFiles) archive_file [] in
  let* _ := writeFile zipPath (ZipBytes entries) in
  ret (Success zipFilename
         ("/downloads/" +:+ zipFilename)
         ("Split into " +:+ JS.num_to_string (Z.of_nat (length outputFiles))
            +:+ " files")).

Definition split_handler (body : split_body) (req_file : option multer_file) : io response :=
  try_catch
    (match req_file with
     | None => ret (BadRequest "No file uploaded")
     | Some file =>
         let* pdfBytes := readFile (path file) in
         let* pdfDoc := PDFDocument_load pdfBytes in
         (* [pdfDoc.getPageCount()]; from here [pdfDoc] is its pages *)
         let* pdfDoc := getPages pdfDoc in
         let totalPages := getPageCount pdfDoc in
         let outputFiles := [] in
         let* outputFiles := split_parts body pdfDoc totalPages outputFiles in
         send_archive file outputFiles
     end)
    (fun error => ret (ServerError error)).

(** ** Page groups: the indices a part asks pdf-lib to copy *)

(** The values of the loop variable for which
    [for (let p = init; cond(p); p++)] runs its body when no turn throws. *)
Fixpoint iterations (fuel : nat) (cond : Z -> bool) (p : Z) : list Z :=
  match fuel with
  | O => []
  | S fuel' => if cond p then p :: iterations fuel' cond (p + 1) else []
  end.

(** A token with no number where the handler reads one: NaN in the
    single branch, a NaN bound in the interval branch. *)
Definition token_is_NaN (range : string) : bool :=
  if JS.includes "-" range then
    match range_bounds range with
    | (Some _, Some _) => false
    | _ => true
    end
  else
    match JS.parseInt range with
    | Some _ => false
    | None => true
    end.

(** The loop of [copy_range]. *)
Definition interval_group (totalPages : Z) (start end_ : option Z) : list Z :=
  match start, end_ with
  | Some s, Some e =>
      iterations (S (Z.to_nat (totalPages - s))) (range_loop_cond e totalPages) s
  | _, _ => []
  end.

(** The test of [copy_single]. *)
Definition single_group (totalPages : Z) (pageNum : option Z) : list Z :=
  match pageNum with
  | Some n => if n <? totalPages then [n] else []
  | None => []
  end.

(** The dispatch of [copy_token]. *)
Definition token_group (totalPages : Z) (range : string) : list Z :=
  if JS.includes "-" range then
    let '(start, end_) := range_bounds range in
    interval_group totalPages start end_
  else single_group totalPages (JS.minus_one (JS.parseInt range)).


(** The pages of [doc] at the indices of a group, [None] when an index
    is outside the document. *)
Definition pages_at (doc : list Page) (group : list Z) : option (list Page) :=
  mapM (page_at doc) group.

(** [n] pages of [doc] from index [from] on. *)
Definition slice (doc : list Page) (from n : Z) : list Page :=
  take (Z.to_nat n) (drop (Z.to_nat from) doc).

(** ** Names and contents the split handler leaves behind *)

Definition part_name (i now : Z) : string :=
  "split-part" +:+ JS.num_to_string (i + 1) +:+ "-" +:+ JS.num_to_string now +:+ ".pdf".

Definition zip_name (now : Z) : string :=
  "split-files-" +:+ JS.num_to_string now +:+ ".zip".

Definition merged_name (now : Z) : string :=
  "merged-" +:+ JS.num_to_string now +:+ ".pdf".

(** The name of part [i] when the loop over the parts started at tick [t]. *)
Definition part_name_at (clk : nat -> Z) (t : nat) (i : nat) : string :=
  part_name (Z.of_nat i) (clk (t + i)%nat).

(** The entries of the archive of the parts [parts], the first written
    at tick [t]. *)
Definition part_entries (clk : nat -> Z) (t : nat) (parts : list (list Page))
    : list (string * blob) :=
  imap (fun i pages => (part_name_at clk t i, PdfBytes (with_default_page pages))) parts.

(** The directory [downloads] after files were written into it, in order. *)
Definition with_downloads (entries : list (string * blob)) (fs : gmap string blob)
    : gmap string blob :=
  foldl (fun m e => <[JS.path_join "downloads" e.1 := e.2]> m) fs entries.

(** The entries of an archive that takes up the files of [downloads]
    named [names], in that order. *)
Definition archive_of (names : list string) (fs : gmap string blob)
    : list (string * blob) :=
  omap (fun name => pair name <$> fs !! JS.path_join "downloads" name) names.

(** The answer of a split request that made the parts [parts], and the
    world it leaves: the parts and the archive in [downloads], the
    upload gone.  A part is the document as the handler built it; the
    file holds what [save] wrote. *)
Definition split_response (parts : list (list Page)) (w : world) : response :=
  let now := clock w (ticks w + length parts)%nat in
  Success (zip_name now) ("/downloads/" +:+ zip_name now)
    ("Split into " +:+ JS.num_to_string (Z.of_nat (length parts)) +:+ " files").

Definition after_split (file : multer_file) (parts : list (list Page)) (w : world) : world :=
  let entries := part_entries (clock w) (ticks w) parts in
  let now := clock w (ticks w + length parts)%nat in
  let downloads := with_downloads entries (files w) in
  World (<[JS.path_join "downloads" (zip_name now)
             := ZipBytes (archive_of (archive_order (entries.*1)) downloads)]>
           (delete (path file) downloads))
    (clock w) (S (ticks w + length parts)).

(** The world once the loop over the parts has written [parts]: they
    are in [downloads] and nothing else has changed.  A request whose
    next copy throws stops in this world. *)
Definition after_parts (parts : list (list Page)) (w : world) : world :=
  World (with_downloads (part_entries (clock w) (ticks w) parts) (files w))
    (clock w) (ticks w + length parts).

(** The answer of a merge request and the world it leaves. *)
Definition merge_response (files : list multer_file) (w : world) : response :=
  let now := clock w (ticks w) in
  Success (merged_name now) ("/downloads/" +:+ merged_name now)
    ("Merged " +:+ JS.num_to_string (Z.of_nat (length files)) +:+ " PDFs successfully").

Definition after_merge (uploads : list multer_file) (merged : list Page) (w : world) : world :=
  World (<[JS.path_join "downloads" (merged_name (clock w (ticks w)))
             := PdfBytes (with_default_page merged)]>
           (foldl (fun m file => delete (path file) m) (files w) uploads))
    (clock w) (S (ticks w)).

(** The documents inside the archive that a successful answer names,
    in the order of its entries. *)
Definition archived_documents (answer : response) (w : world) : option (list blob) :=
  match answer with
  | Success fileName _ _ =>
      match files w !! JS.path_join "downloads" fileName with
      | Some (ZipBytes entries) => Some (entries.*2)
      | _ => None
      end
  | _ => None
  end.

(** What [downloads] holds is the same in both worlds. *)
Definition downloads_unchanged (w w' : world) : Prop :=
  forall name, files w' !! JS.path_join "downloads" name
               = files w !! JS.path_join "downloads" name.

(** The parts of the size mode: part [i] holds the pages from
    [i * pagesPerPart] up to [min ((i + 1) * pagesPerPart) totalPages]. *)
Definition size_parts (pdfDoc : list Page) (parts : Z) : list (list Page) :=
  let totalPages := getPageCount pdfDoc in
  let pagesPerPart := Math_ceil_div totalPages parts in
  (fun i => slice pdfDoc (i * pagesPerPart)
              (Z.min (i * pagesPerPart + pagesPerPart) totalPages - i * pagesPerPart))
    <$> seqZ 0 parts.

End Server.

Arguments blob Page : clear implicits.
Arguments document Page : clear implicits.
Arguments world Page : clear implicits.

(** The exception that a file which is no PDF brings to the handlers
    that look at its pages.  Bytes without a PDF header are refused when
    pdf-lib loads them; bytes with nothing behind the header are loaded,
    and the first look at the pages throws. *)
Definition page_error {Page : Type} (bytes : blob Page) : option error :=
  match bytes with
  | PdfBytes _ => None
  | HeaderBytes => Some (TypeError "Pages")
  | _ => Some InvalidPDF
  end.

(** ** Reading a split request *)



(** The token names page 0: a single number that parses to 0, or an
    interval whose first number parses to 0 and whose second is a
    number. *)
Definition names_page_zero (range : string) : bool :=
  if JS.includes "-" range then
    match range_bounds range with
    | (Some start, Some _) => start =? -1
    | _ => false
    end
  else
    match JS.parseInt range with
    | Some n => n =? 0
    | None => false
    end.

(** ** The security endpoint: [app.post('/api/security', ...)] *)

(** The options the handler gives [page.drawText].  A length on a page
    is a rational number, and the arithmetic on it is exact. *)
Module DrawText.
Record options : Type := Options {
  x : QArith_base.Q;
  y : QArith_base.Q;
  size : QArith_base.Q;
  opacity : QArith_base.Q
}.
End DrawText.

Record security_body : Type := SecurityBody {
  securityAction : option string;
  password : option string;
  watermarkText : option string
}.

(** A request field inside a template literal: undefined prints as
    [undefined]. *)
Definition template (v : option string) : string := default "undefined" v.

Section Security.

Context {Page : Type} `{!Libraries Page}.

(** pdf-lib's pages: [page.getSize()] gives the width and the height;
    [page.drawText(text, options)] draws on the page, or throws when
    the font cannot encode the text. *)
Variable getSize : Page -> QArith_base.Q * QArith_base.Q.
Variable drawText : string -> DrawText.options -> Page -> error + Page.

Local Notation "'let*' x := m 'in' k" := (bind m (fun x => k))
  (at level 10, x pattern, m at level 100, k at level 200).

(** [pages.forEach(page => { page.drawText(watermarkText, options); })]:
    the pages are drawn on in order, up to the first that throws. *)
Fixpoint draw_on_pages (watermarkText : string) (options : DrawText.options)
    (pages : list Page) : @io Page (list Page) :=
  match pages with
  | [] => ret []
  | page :: rest =>
      match drawText watermarkText options page with
      | inl e => throw e
      | inr page' =>
          let* rest' := draw_on_pages watermarkText options rest in
          ret (page' :: rest')
      end
  end.

(** [{ x: width / 2 - 100, y: height / 2, size: 48, opacity: 0.2 }] *)
Definition watermark_options (width height : QArith_base.Q) : DrawText.options :=
  DrawText.Options
    (QArith_base.Qminus (QArith_base.Qdiv width (QArith_base.inject_Z 2))
       (QArith_base.inject_Z 100))
    (QArith_base.Qdiv height (QArith_base.inject_Z 2))
    (QArith_base.inject_Z 48)
    (QArith_base.Qmake 2 10).

(** The watermark branch: [pages[0]] is undefined for a document without
    pages, and reading its [getSize] throws. *)
Definition watermark (watermarkText : string) (pdfDoc : document Page) (outputPath : string)
    : @io Page unit :=
  let* pages := getPages pdfDoc in
  match pages !! 0%nat with
  | None => throw (TypeError "getSize")
  | Some first =>
      let '(width, height) := getSize first in
      let* pages := draw_on_pages watermarkText (watermark_options width height) pages in
      let* watermarkedBytes := save pages in
      writeFile outputPath watermarkedBytes
  end.

(** The handler reads and loads the upload before it looks at the
    action, and it does not create [downloads]. *)
Definition security_handler (body : security_body) (req_file : option multer_file)
    : @io Page response :=
  try_catch
    (match req_file with
     | None => ret (BadRequest "No file uploaded")
     | Some file =>
         let* pdfBytes := readFile (path file) in
         let* pdfDoc := PDFDocument_load pdfBytes in
         let* now := Date_now in
         let outputFilename :=
           template (securityAction body) +:+ "-" +:+ JS.num_to_string now +:+ ".pdf" in
         let outputPath := JS.path_join "downloads" outputFilename in
         if JS.strict_eq (securityAction body) "encrypt" then
           ret (BadRequest
                  "PDF encryption requires additional setup with qpdf or similar tools")
         else
           let* _ :=
             if JS.strict_eq (securityAction body) "watermark"
                && JS.truthy (watermarkText body)
             then watermark (default "" (watermarkText body)) pdfDoc outputPath
             else ret tt in
           let* _ := unlink (path file) in
           ret (Success outputFilename
                  ("/downloads/" +:+ outputFilename)
                  (template (securityAction body) +:+ " applied successfully"))
     end)
    (fun error => ret (ServerError error)).

End Security.

(** ** The sweep of old files: [cleanupOldFiles] *)

Module Sweep.

Import QArith.

(** [const maxAge = 3600000; // 1 hour] *)
Definition maxAge : Z := 3600000.

(** What a directory holds under a name: a file or a subdirectory, each
    with its modification time ([stats.mtimeMs], a number of
    milliseconds that may have a fraction). *)
Inductive entry : Type :=
  | File (mtimeMs : Q)
  | Directory (mtimeMs : Q).

Definition mtimeMs (e : entry) : Q :=
  match e with
  | File m | Directory m => m
  end.

(** The directories of the server, each with its entries.  The sweep
    runs alone: no request touches a directory between two of its
    steps.  The clock is the one of the handlers: the readings of
    [Date.now()], in order. *)
Record disk : Type := Disk {
  tree : gmap string (gmap string entry);
  clock : nat -> Z;
  ticks : nat
}.

(** [Date.now() - stats.mtimeMs > maxAge] *)
Definition is_old (now : Z) (mtimeMs : Q) : bool :=
  negb (Qle_bool (inject_Z now - mtimeMs) (inject_Z maxAge)).

(** [fs.stat(path.join(dir, file))] *)
Definition stat (dir file : string) (d : disk) : outcome entry :=
  match tree d !! dir ≫= (fun entries => entries !! file) with
  | Some e => Returns e
  | None => Throws (ENOENT (JS.path_join dir file))
  end.

(** [fs.unlink(path.join(dir, file))]: it removes a file and refuses a
    directory. *)
Definition unlink (dir file : string) (d : disk) : outcome unit * disk :=
  match tree d !! dir ≫= (fun entries => entries !! file) with
  | Some (File _) =>
      (Returns tt, Disk (alter (delete file) dir (tree d)) (clock d) (ticks d))
  | Some (Directory _) => (Throws (EISDIR (JS.path_join dir file)), d)
  | None => (Throws (ENOENT (JS.path_join dir file)), d)
  end.

(** One turn of [for (const file of files)]: stat, compare, unlink. *)
Definition sweep_file (dir file : string) (d : disk) : outcome unit * disk :=
  match stat dir file d with
  | Returns stats =>
      let now := clock d (ticks d) in
      let d := Disk (tree d) (clock d) (S (ticks d)) in
      if is_old now (mtimeMs stats) then unlink dir file d else (Returns tt, d)
  | Throws e => (Throws e, d)
  | OutOfFuel => (OutOfFuel, d)
  end.

Fixpoint sweep_files (dir : string) (files : list string) (d : disk)
    : outcome unit * disk :=
  match files with
  | [] => (Returns tt, d)
  | file :: rest =>
      match sweep_file dir file d with
      | (Returns _, d') => sweep_files dir rest d'
      | r => r
      end
  end.

Section Listing.

(** The order in which the system lists the names of a directory:
    [fs.readdir] promises none. *)
Variable listing : list string -> list string.

(** [fs.readdir(dir)] *)
Definition readdir (dir : string) (d : disk) : outcome (list string) :=
  match tree d !! dir with
  | Some entries => Returns (listing (map_to_list entries).*1)
  | None => Throws (ENOENT dir)
  end.

(** The body of [for (const dir of dirs)]: [try { ... } catch (err) {}]
    drops any exception, with what was done before it. *)
Definition sweep_dir (dir : string) (d : disk) : disk :=
  match readdir dir d with
  | Returns files => (sweep_files dir files d).2
  | _ => d
  end.

(** [const dirs = ['uploads', 'downloads']] *)
Definition cleanupOldFiles (d : disk) : disk :=
  foldl (fun d dir => sweep_dir dir d) d ["uploads"; "downloads"].

End Listing.

(** What a directory holds under a name, and its modification time, if
    it is there. *)
Definition entry_of (dir file : string) (d : disk) : option entry :=
  tree d !! dir ≫= (fun entries => entries !! file).

Definition mtime_of (dir file : string) (d : disk) : option Q :=
  mtimeMs <$> entry_of dir file d.

End Sweep.

(** ** The words of the specification *)

(** [[i-1 for i in a..b if i-1 < totalPages]] *)
Definition spec_interval_group (a b totalPages : Z) : list Z :=
  (fun i => i - 1) <$> filter (fun i => i - 1 < totalPages) (seqZ a (b - a + 1)).



(** ** A sample request: a ten-page upload at time 1000 *)

Definition sample_doc : list Z := seqZ 100 10.

Definition sample_upload : multer_file := MulterFile "999-a.pdf" "a.pdf".

Definition sample_clock (n : nat) : Z := 1000 + Z.of_nat n.

Definition sample_world : world Z :=
  World {[ path sample_upload := PdfBytes sample_doc ]} sample_clock 0.

(** A disk for the sweep: at the clock's first reading (5000000 ms) the
    upload written at 0 ms and the download written at 0.5 ms are older
    than an hour, the upload written at 4000000 ms is not. *)
Definition late_clock (n : nat) : Z := 5000000 + Z.of_nat n.

Definition sample_disk : Sweep.disk :=
  Sweep.Disk
    {[ "uploads" := {[ "1-a.pdf" := Sweep.File (QArith_base.inject_Z 0);
                       "2-b.pdf" := Sweep.File (QArith_base.inject_Z 4000000) ]};
       "downloads" := {[ "merged-1.pdf" := Sweep.File (QArith_base.Qmake 1 2);
                         "keep" := Sweep.Directory (QArith_base.inject_Z 4500000) ]};
       "public" := {[ "index.html" := Sweep.File (QArith_base.inject_Z 0) ]} ]}
    late_clock 0.

(** The same disk when the directory inside [downloads] is as old as
    the files. *)
Definition stale_disk : Sweep.disk :=
  Sweep.Disk
    {[ "downloads" := {[ "merged-1.pdf" := Sweep.File (QArith_base.Qmake 1 2);
                         "keep" := Sweep.Directory (QArith_base.inject_Z 0) ]} ]}
    late_clock 0.

(** The libraries of the samples: pages are numbers, the blank page is
    0, and the archive takes the files up last to first. *)
#[global] Instance sample_libraries : Libraries Z := {|
  blankPage := 0;
  archive_order := reverse;
  archive_order_perm := reverse_Permutation
|}.

(** * Properties *)

(** ** Numbers *)

Lemma to_number_exact (n : Z) : - 2 ^ 53 <= n <= 2 ^ 53 -> JS.to_number n = n.
Proof.
  intros Hn. unfold JS.to_number.
  destruct (Z.leb_spec (Z.log2 (Z.abs n) - 52) 0) as [|Hk]; [done|].
  assert (2 ^ 53 <= Z.abs n) as Hge.
  { destruct (Z.le_gt_cases (2 ^ 53) (Z.abs n)) as [|Hlt]; [done|].
    destruct (Z.eq_dec (Z.abs n) 0) as [H0|H0]; [rewrite H0 in Hk; simpl in Hk; lia|].
    apply Z.log2_lt_pow2 in Hlt; lia. }
  assert (n = 2 ^ 53 \/ n = - 2 ^ 53) as [-> | ->] by lia; reflexivity.
Qed.

Lemma to_number_sign (n : Z) :
  (0 <= n -> 0 <= JS.to_number n) /\ (n <= 0 -> JS.to_number n <= 0).
Proof.
  unfold JS.to_number.
  destruct (Z.leb_spec (Z.log2 (Z.abs n) - 52) 0) as [|Hk]; [done|].
  set (k := Z.log2 (Z.abs n) - 52) in *.
  set (q := Z.shiftr (Z.abs n) k).
  assert (0 <= q) by (apply Z.shiftr_nonneg; lia).
  match goal with |- context [Z.shiftl ?x k] => set (q' := x) end.
  assert (0 <= q') by (unfold q'; destruct (_ || _); lia).
  assert (0 <= Z.shiftl q' k) by (by apply Z.shiftl_nonneg).
  split; intros; nia.
Qed.

Lemma to_number_above (n : Z) : 2 ^ 53 + 2 <= n -> 2 ^ 53 < JS.to_number n.
Proof.
  intros Hn. unfold JS.to_number. rewrite Z.abs_eq by lia.
  pose proof (Z.log2_spec n ltac:(lia)) as [Hlo Hhi].
  assert (53 <= Z.log2 n) as Hlog.
  { apply Z.log2_le_pow2; lia. }
  destruct (Z.leb_spec (Z.log2 n - 52) 0) as [|Hk]; [lia|].
  set (k := Z.log2 n - 52) in *.
  rewrite Z.sgn_pos, Z.mul_1_l by lia.
  set (q := Z.shiftr n k).
  match goal with |- context [Z.shiftl ?x k] => set (q' := x) end.
  assert (q <= q') by (unfold q'; destruct (_ || _); lia).
  rewrite Z.shiftl_mul_pow2 by lia.
  unfold q in *. rewrite Z.shiftr_div_pow2 in * by lia.
  assert (2 <= 2 ^ k) as Hp.
  { change 2 with (2 ^ 1) at 1. apply Z.pow_le_mono_r; lia. }
  replace (Z.log2 n) with (52 + k) in Hlo by lia.
  rewrite Z.pow_add_r in Hlo by lia.
  pose proof (Z.div_mod n (2 ^ k) ltac:(lia)) as Hdiv.
  pose proof (Z.mod_pos_bound n (2 ^ k) ltac:(lia)) as Hmod.
  generalize dependent (2 ^ k). intros p. intros.
  generalize dependent (n / p). intros d. intros.
  generalize dependent (n mod p). intros r. intros.
  change (2 ^ 53) with 9007199254740992 in *. change (2 ^ 52) with 4503599627370496 in *.
  destruct (Z.eq_dec p 2); nia.
Qed.

Section Counting.

Context {Page : Type}.

(** While the counter stays below [2^53] its steps are exact. *)
Lemma count_loop_exact {A} fuel cond (body : Z -> A -> @io Page A) i acc w :
  0 <= i ->
  (forall j, 0 <= j -> cond j = true -> j < 2 ^ 53) ->
  count_loop fuel cond body i acc w = for_loop fuel cond body i acc w.
Proof.
  intros Hi Hcond. revert i acc w Hi.
  induction fuel as [|fuel IH]; intros i acc w Hi; simpl; [done|].
  destruct (cond i) eqn:Hc; [|done].
  unfold bind. destruct (body i acc w) as [[acc'| |] w1]; [|done..].
  specialize (Hcond i Hi Hc).
  rewrite to_number_exact by lia. apply IH. lia.
Qed.


(** A bound above [2^53] is never reached: the counter stops growing at
    [2^53], so when the turns all return, no number of turns ends the
    loop. *)
Lemma count_loop_never_ends {A} fuel parts (body : Z -> A -> @io Page A) i acc w :
  2 ^ 53 < parts ->
  0 <= i <= 2 ^ 53 ->
  (forall j acc' w', 0 <= j -> exists acc'' w'', body j acc' w' = (Returns acc'', w'')) ->
  (count_loop fuel (fun i => i <? parts) body i acc w).1 = OutOfFuel.
Proof.
  intros Hparts Hi Hbody. revert i acc w Hi.
  induction fuel as [|fuel IH]; intros i acc w Hi; simpl; [done|].
  destruct (Z.ltb_spec i parts); [|lia].
  unfold bind. destruct (Hbody i acc w ltac:(lia)) as (acc1 & w1 & ->).
  apply IH. destruct (Z.eq_dec i (2 ^ 53)) as [->|Hne].
  - by vm_compute.
  - rewrite to_number_exact by lia. lia.
Qed.

End Counting.

(** ** Loops *)

Section Loops.

Context {Page : Type} `{!Libraries Page}.

Abbreviation io := (@io Page).

Lemma bind_returns {A B} (m : io A) (k : A -> io B) w a w' :
  m w = (Returns a, w') -> bind m k w = k a w'.
Proof. intros H. unfold bind. by rewrite H. Qed.

Lemma bind_throws {A B} (m : io A) (k : A -> io B) w e w' :
  m w = (Throws e, w') -> bind m k w = (Throws e, w').
Proof. intros H. unfold bind. by rewrite H. Qed.

Lemma for_of_app {A B} (xs ys : list B) (body : B -> A -> io A) acc w :
  for_of (xs ++ ys) body acc w = bind (for_of xs body acc) (for_of ys body) w.
Proof.
  revert acc w. induction xs as [|x xs IH]; intros acc w; simpl.
  - reflexivity.
  - unfold bind. destruct (body x acc w) as [[acc'| |] w1]; [|done..].
    rewrite IH. reflexivity.
Qed.

(** A loop with fuel left over is the sequence of its turns. *)
Lemma for_loop_iterations {A} fuel cond (body : Z -> A -> io A) p acc w :
  (length (iterations fuel cond p) < fuel)%nat ->
  for_loop fuel cond body p acc w = for_of (iterations fuel cond p) body acc w.
Proof.
  revert p acc w. induction fuel as [|fuel IH]; intros p acc w Hlen; simpl in *.
  - lia.
  - destruct (cond p); [|done]. simpl in *.
    unfold bind. destruct (body p acc w) as [[acc'| |] w1]; [|done..].
    apply IH. lia.
Qed.

Lemma iterations_lt fuel n p :
  (Z.to_nat (n - p) <= fuel)%nat ->
  iterations fuel (fun i => i <? n) p = seqZ p (n - p).
Proof.
  revert p. induction fuel as [|fuel IH]; intros p Hfuel; simpl.
  - rewrite seqZ_nil; [done|lia].
  - destruct (Z.ltb_spec p n).
    + rewrite seqZ_cons by lia. f_equal.
      rewrite IH by lia. f_equal; lia.
    + rewrite seqZ_nil; [done|lia].
Qed.

Lemma iterations_range fuel e T p :
  (Z.to_nat (T - p) <= fuel)%nat ->
  iterations fuel (range_loop_cond e T) p = seqZ p (Z.min (e + 1) T - p).
Proof.
  revert p. induction fuel as [|fuel IH]; intros p Hfuel; simpl; unfold range_loop_cond.
  - rewrite seqZ_nil; [done|lia].
  - destruct (Z.leb_spec p e), (Z.ltb_spec p T); simpl;
      try (rewrite seqZ_nil; [done|lia]).
    rewrite seqZ_cons by lia. f_equal.
    fold (range_loop_cond e T). rewrite IH by lia. f_equal; lia.
Qed.

End Loops.

Section Copying.

Context {Page : Type} `{!Libraries Page}.

Implicit Types (doc pdfDoc newPdf : list Page) (w : world Page).

Lemma copy_one_returns pdfDoc p page newPdf w :
  page_at pdfDoc p = Some page ->
  copy_one pdfDoc p newPdf w = (Returns (newPdf ++ [page]), w).
Proof. intros H. unfold copy_one, bind. simpl. by rewrite H. Qed.

Lemma copy_one_throws pdfDoc p newPdf w :
  page_at pdfDoc p = None ->
  copy_one pdfDoc p newPdf w = (Throws (TypeError "node"), w).
Proof. intros H. unfold copy_one, bind. simpl. by rewrite H. Qed.

(** Copying a group whose indices are all inside the document appends
    its pages, in the order of the group. *)
Lemma copy_group_returns pdfDoc group pages newPdf w :
  pages_at pdfDoc group = Some pages ->
  for_of group (copy_one pdfDoc) newPdf w = (Returns (newPdf ++ pages), w).
Proof.
  unfold pages_at. revert pages newPdf.
  induction group as [|p group IH]; intros pages newPdf H; simpl in *.
  - injection H as <-. by rewrite app_nil_r.
  - destruct (page_at pdfDoc p) as [page|] eqn:Hp; [|done]. simpl in H.
    destruct (mapM (page_at pdfDoc) group) as [rest|] eqn:Hrest; [|done].
    injection H as <-.
    rewrite (bind_returns _ _ _ _ _ (copy_one_returns _ _ _ _ w Hp)).
    rewrite (IH rest) by done. by rewrite <- app_assoc.
Qed.

(** A group that starts outside the document throws at its first index. *)
Lemma copy_group_throws pdfDoc p group newPdf w :
  page_at pdfDoc p = None ->
  for_of (p :: group) (copy_one pdfDoc) newPdf w = (Throws (TypeError "node"), w).
Proof.
  intros Hp. simpl. by rewrite (bind_throws _ _ _ _ _ (copy_one_throws _ _ _ w Hp)).
Qed.

Lemma page_at_lookup doc p :
  0 <= p -> page_at doc p = doc !! Z.to_nat p.
Proof. intros H. unfold page_at. destruct (Z.ltb_spec p 0); [lia|done]. Qed.

Lemma page_at_negative doc p : p < 0 -> page_at doc p = None.
Proof. intros H. unfold page_at. destruct (Z.ltb_spec p 0); [done|lia]. Qed.

Lemma pages_at_seqZ doc from n :
  0 <= from -> from + n <= getPageCount doc ->
  pages_at doc (seqZ from n) = Some (slice doc from n).
Proof.
  unfold pages_at, slice, getPageCount. intros Hfrom Hn.
  apply mapM_Some. apply Forall2_same_length_lookup. split.
  - rewrite length_seqZ, length_take, length_drop. lia.
  - intros i p page Hi Hpage. apply lookup_seqZ in Hi as [-> Hi].
    rewrite page_at_lookup by lia.
    rewrite lookup_take_Some in Hpage. destruct Hpage as [Hpage _].
    rewrite lookup_drop in Hpage. rewrite <- Hpage. f_equal. lia.
Qed.

Lemma slice_length doc from n :
  0 <= from -> 0 <= n -> from + n <= getPageCount doc ->
  Z.of_nat (length (slice doc from n)) = n.
Proof.
  unfold slice, getPageCount. intros. rewrite length_take, length_drop. lia.
Qed.



Lemma slice_all doc : slice doc 0 (getPageCount doc) = doc.
Proof.
  unfold slice, getPageCount. rewrite Nat2Z.id. simpl. apply firstn_all.
Qed.

(** The range loop is the copy of its group. *)
Lemma copy_range_group pdfDoc totalPages start end_ newPdf w :
  copy_range pdfDoc totalPages start end_ newPdf w
  = for_of (interval_group totalPages start end_) (copy_one pdfDoc) newPdf w.
Proof.
  unfold copy_range, interval_group.
  destruct start as [s|], end_ as [e|]; try reflexivity.
  apply for_loop_iterations. rewrite iterations_range by lia.
  rewrite length_seqZ. lia.
Qed.

Lemma copy_single_group pdfDoc totalPages pageNum newPdf w :
  copy_single pdfDoc totalPages pageNum newPdf w
  = for_of (single_group totalPages pageNum) (copy_one pdfDoc) newPdf w.
Proof.
  unfold copy_single, single_group. destruct pageNum as [n|]; [|done].
  destruct (n <? totalPages); [|done]. simpl. unfold bind.
  by destruct (copy_one pdfDoc n newPdf w) as [[?| |] ?].
Qed.

Lemma copy_token_group pdfDoc totalPages range newPdf w :
  copy_token pdfDoc totalPages range newPdf w
  = for_of (token_group totalPages range) (copy_one pdfDoc) newPdf w.
Proof.
  unfold copy_token, token_group. destruct (JS.includes "-" range).
  - destruct (range_bounds range) as [start end_]. apply copy_range_group.
  - apply copy_single_group.
Qed.

Lemma interval_group_seqZ totalPages s e :
  interval_group totalPages (Some s) (Some e)
  = seqZ s (Z.min (e + 1) totalPages - s).
Proof. unfold interval_group. apply iterations_range. lia. Qed.


End Copying.

(** ** Interval tokens *)

Lemma filter_seqZ_below (T a n : Z) :
  filter (fun i => i - 1 < T) (seqZ a n) = seqZ a (Z.min n (T + 1 - a)).
Proof.
  remember (Z.to_nat n) as k eqn:Hk. revert a n Hk.
  induction k as [|k IH]; intros a n Hk.
  - rewrite (seqZ_nil a n) by lia. rewrite seqZ_nil by lia. done.
  - rewrite (seqZ_cons a n) by lia. rewrite filter_cons.
    destruct (decide (a - 1 < T)) as [Hin|Hout].
    + rewrite (seqZ_cons a (Z.min _ _)) by lia. f_equal.
      rewrite IH by lia. f_equal. lia.
    + rewrite IH by lia. rewrite seqZ_nil by lia. rewrite seqZ_nil by lia. done.
Qed.

Lemma spec_interval_group_seqZ (a b T : Z) :
  spec_interval_group a b T = seqZ (a - 1) (Z.min b T - (a - 1)).
Proof.
  unfold spec_interval_group. rewrite filter_seqZ_below.
  rewrite (list_fmap_ext _ (Z.add (-1))) by (intros; lia).
  rewrite fmap_add_seqZ. f_equal; lia.
Qed.

(** ** File names *)

Lemma uint_string_no_dash (d : Decimal.uint) :
  JS.includes "-" (NilEmpty.string_of_uint d) = false.
Proof. induction d; simpl; auto. Qed.

Lemma num_to_string_no_dash (n : Z) :
  0 <= n -> JS.includes "-" (JS.num_to_string n) = false.
Proof.
  intros Hn. unfold JS.num_to_string. destruct n as [|p|p]; [done| |lia].
  simpl. destruct (Pos.to_uint p); try apply uint_string_no_dash. done.
Qed.

Lemma num_to_string_inj (m n : Z) :
  JS.num_to_string m = JS.num_to_string n -> m = n.
Proof.
  unfold JS.num_to_string. intros H.
  assert (Hnil : forall z, Z.to_int z <> Decimal.Pos Decimal.Nil
                        /\ Z.to_int z <> Decimal.Neg Decimal.Nil).
  { intros [|p|p]; simpl; split; try discriminate;
      intros [= Hp]; by apply DecimalPos.Unsigned.to_uint_nonnil in Hp. }
  apply (f_equal NilZero.int_of_string) in H.
  rewrite !NilZero.isi in H by apply Hnil.
  injection H as H. apply (f_equal Z.of_int) in H.
  by rewrite !DecimalZ.of_to in H.
Qed.

Lemma append_dash_inj (u v x y : string) :
  JS.includes "-" u = false -> JS.includes "-" v = false ->
  u +:+ String "-" x = v +:+ String "-" y -> u = v.
Proof.
  revert v. induction u as [|c u IH]; intros [|d v] Hu Hv H; simpl in *.
  - done.
  - injection H as <- _. by rewrite Ascii.eqb_refl in Hv.
  - injection H as -> _. by rewrite Ascii.eqb_refl in Hu.
  - injection H as -> H. apply orb_false_elim in Hu as [_ Hu].
    apply orb_false_elim in Hv as [_ Hv]. f_equal. by apply IH.
Qed.

(** Two parts of one request never share a name: the part number is in it. *)
Lemma part_name_inj (i j t t' : Z) :
  0 <= i -> 0 <= j -> part_name i t = part_name j t' -> i = j.
Proof.
  intros Hi Hj H. unfold part_name in H. simpl in H.
  injection H as H.
  apply append_dash_inj in H; try (apply num_to_string_no_dash; lia).
  apply num_to_string_inj in H. lia.
Qed.

Lemma path_join_inj (dir a b : string) :
  JS.path_join dir a = JS.path_join dir b -> a = b.
Proof.
  unfold JS.path_join. induction dir as [|c dir IH]; simpl; intros H.
  - by injection H.
  - injection H as H. by apply IH.
Qed.

Lemma downloads_not_uploads (a b : string) :
  JS.path_join "downloads" a <> JS.path_join "uploads" b.
Proof. discriminate. Qed.

(** ** The loop over the parts and the archive *)

Section Parts.

Context {Page : Type} `{!Libraries Page}.

Implicit Types (doc pdfDoc newPdf : list Page) (w : world Page)
  (parts : list (list Page)) (entries : list (string * blob Page)).

Lemma write_part_run i newPdf outputFiles w :
  write_part i newPdf outputFiles w
  = (Returns (outputFiles ++ [part_name i (clock w (ticks w))]),
     World (<[JS.path_join "downloads" (part_name i (clock w (ticks w)))
                := PdfBytes (with_default_page newPdf)]>
              (files w))
       (clock w) (S (ticks w))).
Proof. reflexivity. Qed.

Lemma part_entries_snoc clk t parts pages :
  part_entries clk t (parts ++ [pages])
  = part_entries clk t parts
    ++ [(part_name_at clk t (length parts), PdfBytes (with_default_page pages))].
Proof.
  unfold part_entries. rewrite imap_app. simpl. by rewrite Nat.add_0_r.
Qed.

Lemma part_entries_length clk t parts :
  length (part_entries clk t parts) = length parts.
Proof. apply length_imap. Qed.

Lemma with_downloads_snoc entries e (fs : gmap string (blob Page)) :
  with_downloads (entries ++ [e]) fs
  = <[JS.path_join "downloads" e.1 := e.2]> (with_downloads entries fs).
Proof. unfold with_downloads. by rewrite foldl_app. Qed.

(** A loop whose turn [i] writes the part [parts !! i] leaves the parts
    in [downloads] and returns their names, in order. *)
Lemma part_loop_run (body : Z -> list string -> io (list string)) parts w :
  (forall (i : nat) pages, parts !! i = Some pages ->
     forall outputFiles w',
       body (Z.of_nat i) outputFiles w' = write_part (Z.of_nat i) pages outputFiles w') ->
  for_of (seqZ 0 (Z.of_nat (length parts))) body [] w
  = (Returns ((part_entries (clock w) (ticks w) parts).*1),
     World (with_downloads (part_entries (clock w) (ticks w) parts) (files w))
       (clock w) (ticks w + length parts)).
Proof.
  induction parts as [|pages parts IH] using rev_ind; intros Hbody.
  - simpl. destruct w as [fs clk t]. simpl. by rewrite Nat.add_0_r.
  - rewrite length_app. simpl. rewrite Nat.add_1_r, seqZ_S, for_of_app.
    erewrite bind_returns; last first.
    { apply IH. intros i ps Hi. apply Hbody. by apply lookup_app_l_Some. }
    simpl. erewrite bind_returns; last first.
    { rewrite Z.add_0_l. rewrite (Hbody (length parts) pages); [apply write_part_run|].
      by rewrite lookup_app_r, Nat.sub_diag by lia. }
    simpl. rewrite part_entries_snoc, fmap_app, with_downloads_snoc. simpl.
    unfold ret, part_name_at. do 2 f_equal. lia.
Qed.

Lemma with_downloads_part_lookup clk t parts (fs : gmap string (blob Page)) i pages :
  parts !! i = Some pages ->
  with_downloads (part_entries clk t parts) fs
    !! JS.path_join "downloads" (part_name_at clk t i)
  = Some (PdfBytes (with_default_page pages)).
Proof.
  revert i pages. induction parts as [|ps parts IH] using rev_ind; intros i pages Hi.
  - done.
  - rewrite part_entries_snoc, with_downloads_snoc. simpl.
    destruct (decide (i = length parts)) as [->|Hne].
    + rewrite lookup_app_r, Nat.sub_diag in Hi by lia. injection Hi as ->.
      apply lookup_insert_eq.
    + assert (i < length parts)%nat as Hlt.
      { apply lookup_lt_Some in Hi. rewrite length_app in Hi. simpl in Hi. lia. }
      rewrite lookup_insert_ne.
      * apply IH. by rewrite lookup_app_l in Hi.
      * intros Heq. apply path_join_inj in Heq. unfold part_name_at in Heq.
        apply part_name_inj in Heq; lia.
Qed.

Lemma with_downloads_upload_lookup entries (fs : gmap string (blob Page)) file :
  with_downloads entries fs !! path file = fs !! path file.
Proof.
  induction entries as [|e entries IH] using rev_ind; [done|].
  rewrite with_downloads_snoc, lookup_insert_ne; [done|].
  apply downloads_not_uploads.
Qed.

Lemma archive_run names acc w :
  Forall (fun name => is_Some (files w !! JS.path_join "downloads" name)) names ->
  for_of names archive_file acc w = (Returns (acc ++ archive_of names (files w)), w).
Proof.
  intros H. revert acc. induction H as [|name names [bytes Hhd] _ IH]; intros acc; simpl.
  - by rewrite app_nil_r.
  - unfold archive_file at 1, bind, readFile, ret. rewrite Hhd.
    fold (@bind Page). rewrite IH. simpl. by rewrite <- app_assoc.
Qed.

(** An archive of files that are there has one entry for each name, in
    the order of the names. *)
Lemma archive_of_entries entries (fs : gmap string (blob Page)) :
  Forall (fun e => fs !! JS.path_join "downloads" e.1 = Some e.2) entries ->
  archive_of (entries.*1) fs = entries.
Proof.
  induction 1 as [|[name bytes] entries Hhd _ IH]; [done|].
  unfold archive_of in *. rewrite fmap_cons. cbn [omap list_omap fst].
  simpl in Hhd. rewrite Hhd. simpl. by rewrite IH.
Qed.

Lemma archive_of_Permutation names names' (fs : gmap string (blob Page)) :
  names ≡ₚ names' -> archive_of names fs ≡ₚ archive_of names' fs.
Proof. intros H. unfold archive_of. by rewrite H. Qed.

(** The archive holds the files it was told to take, each once, in some
    order. *)
Lemma archive_order_entries entries (fs : gmap string (blob Page)) :
  Forall (fun e => fs !! JS.path_join "downloads" e.1 = Some e.2) entries ->
  archive_of (archive_order (entries.*1)) fs ≡ₚ entries.
Proof.
  intros H. rewrite (archive_of_Permutation _ (entries.*1)) by apply archive_order_perm.
  by rewrite archive_of_entries.
Qed.

Lemma archive_of_upload_deleted names file (fs : gmap string (blob Page)) :
  archive_of names (delete (path file) fs) = archive_of names fs.
Proof.
  unfold archive_of. induction names as [|name names IH]; [done|].
  cbn [omap list_omap]. rewrite IH, lookup_delete_ne; [done|].
  apply not_eq_sym, downloads_not_uploads.
Qed.

(** The end of the handler when the parts are where their names say. *)
Lemma send_archive_run file names w :
  is_Some (files w !! path file) ->
  Forall (fun name => is_Some (files w !! JS.path_join "downloads" name)) names ->
  send_archive file names w
  = (Returns (Success (zip_name (clock w (ticks w)))
                ("/downloads/" +:+ zip_name (clock w (ticks w)))
                ("Split into " +:+ JS.num_to_string (Z.of_nat (length names)) +:+ " files")),
     World (<[JS.path_join "downloads" (zip_name (clock w (ticks w)))
                := ZipBytes (archive_of (archive_order names) (files w))]>
              (delete (path file) (files w)))
       (clock w) (S (ticks w))).
Proof.
  intros [b Hb] Hnames. unfold send_archive.
  erewrite bind_returns; last first.
  { unfold unlink. by rewrite Hb. }
  erewrite bind_returns; last by reflexivity.
  erewrite bind_returns; last first.
  { apply archive_run. simpl. rewrite archive_order_perm.
    eapply Forall_impl; [exact Hnames|].
    intros name Hname. simpl. rewrite lookup_delete_ne; [done|].
    apply not_eq_sym, downloads_not_uploads. }
  simpl. unfold bind, writeFile, ret. simpl. by rewrite archive_of_upload_deleted.
Qed.

End Parts.

(** ** The split handler *)

Section Split.

Context {Page : Type} `{!Libraries Page}.

Implicit Types (doc pdfDoc newPdf : list Page) (w : world Page)
  (parts : list (list Page)) (ranges : list string).

Lemma pages_at_is_Some pdfDoc group :
  Forall (fun p => 0 <= p < getPageCount pdfDoc) group ->
  is_Some (pages_at pdfDoc group).
Proof.
  intros H. unfold pages_at. apply mapM_is_Some.
  eapply Forall_impl; [exact H|]. intros p Hp. simpl in *.
  rewrite page_at_lookup by lia. apply lookup_lt_is_Some.
  unfold getPageCount in Hp. lia.
Qed.

(** A group with an index outside the document makes the copy throw. *)
Lemma copy_group_fails pdfDoc group newPdf w :
  pages_at pdfDoc group = None ->
  for_of group (copy_one pdfDoc) newPdf w = (Throws (TypeError "node"), w).
Proof.
  unfold pages_at. revert newPdf.
  induction group as [|p group IH]; intros newPdf H; simpl in *; [done|].
  destruct (page_at pdfDoc p) as [page|] eqn:Hp.
  - rewrite (bind_returns _ _ _ _ _ (copy_one_returns _ _ _ _ w Hp)).
    apply IH. simpl in H. by destruct (mapM (page_at pdfDoc) group).
  - by rewrite (bind_throws _ _ _ _ _ (copy_one_throws _ _ _ w Hp)).
Qed.

(** One turn of the range loop on a token whose group is inside the
    document. *)
Lemma range_part_run pdfDoc ranges (i : nat) range pages outputFiles w :
  ranges !! i = Some range ->
  pages_at pdfDoc (token_group (getPageCount pdfDoc) range) = Some pages ->
  range_part pdfDoc (getPageCount pdfDoc) ranges (Z.of_nat i) outputFiles w
  = write_part (Z.of_nat i) pages outputFiles w.
Proof.
  intros Hi Hpages. unfold range_part.
  erewrite bind_returns; last by reflexivity.
  rewrite Nat2Z.id, Hi.
  erewrite bind_returns; last first.
  { rewrite copy_token_group. by apply copy_group_returns. }
  done.
Qed.

Lemma range_part_fails pdfDoc ranges (i : nat) range outputFiles w :
  ranges !! i = Some range ->
  pages_at pdfDoc (token_group (getPageCount pdfDoc) range) = None ->
  range_part pdfDoc (getPageCount pdfDoc) ranges (Z.of_nat i) outputFiles w
  = (Throws (TypeError "node"), w).
Proof.
  intros Hi Hpages. unfold range_part.
  erewrite bind_returns; last by reflexivity.
  rewrite Nat2Z.id, Hi.
  erewrite bind_throws; [done|].
  rewrite copy_token_group. by apply copy_group_fails.
Qed.

Lemma split_pages_loop pdfDoc totalPages pageRanges outputFiles w :
  split_pages pdfDoc totalPages pageRanges outputFiles w
  = for_of (seqZ 0 (Z.of_nat (length (JS.trim <$> JS.split "," pageRanges))))
      (range_part pdfDoc totalPages (JS.trim <$> JS.split "," pageRanges)) outputFiles w.
Proof.
  unfold split_pages. rewrite for_loop_iterations.
  - rewrite iterations_lt by lia. by rewrite Z.sub_0_r.
  - rewrite iterations_lt by lia. rewrite length_seqZ. lia.
Qed.

(** The range mode when every token's group is inside the document. *)
Lemma split_pages_run pdfDoc pageRanges parts w :
  Forall2 (fun range pages =>
             pages_at pdfDoc (token_group (getPageCount pdfDoc) range) = Some pages)
    (JS.trim <$> JS.split "," pageRanges) parts ->
  split_pages pdfDoc (getPageCount pdfDoc) pageRanges [] w
  = (Returns ((part_entries (clock w) (ticks w) parts).*1), after_parts parts w).
Proof.
  intros H. rewrite split_pages_loop.
  rewrite (Forall2_length _ _ _ H).
  apply part_loop_run. intros i pages Hi outputFiles w'.
  destruct (Forall2_lookup_r _ _ _ _ _ H Hi) as (range & Hrange & Hpages).
  by eapply range_part_run.
Qed.

(** The range mode when the token after [parts] has a group that leaves
    the document. *)
Lemma split_pages_fails pdfDoc pageRanges parts range w :
  Forall2 (fun range pages =>
             pages_at pdfDoc (token_group (getPageCount pdfDoc) range) = Some pages)
    (take (length parts) (JS.trim <$> JS.split "," pageRanges)) parts ->
  (JS.trim <$> JS.split "," pageRanges) !! length parts = Some range ->
  pages_at pdfDoc (token_group (getPageCount pdfDoc) range) = None ->
  split_pages pdfDoc (getPageCount pdfDoc) pageRanges [] w
  = (Throws (TypeError "node"), after_parts parts w).
Proof.
  intros Hparts Hrange Hfail. rewrite split_pages_loop.
  set (ranges := JS.trim <$> JS.split "," pageRanges) in *.
  assert (length parts < length ranges)%nat as Hlt by by eapply lookup_lt_Some.
  replace (Z.of_nat (length ranges))
    with (Z.of_nat (length parts) + (Z.of_nat (length ranges) - Z.of_nat (length parts))) by lia.
  rewrite seqZ_app by lia. rewrite for_of_app.
  erewrite bind_returns; last first.
  { apply (part_loop_run _ parts). intros i pages Hi outputFiles w'.
    destruct (Forall2_lookup_r _ _ _ _ _ Hparts Hi) as (r & Hr & Hpages).
    apply lookup_take_Some in Hr as [Hr _]. by eapply range_part_run. }
  rewrite seqZ_cons by lia. simpl.
  erewrite bind_throws; [done|].
  rewrite Z.add_0_l. by eapply range_part_fails.
Qed.

End Split.

Section SplitHandler.

Context {Page : Type} `{!Libraries Page}.

Implicit Types (doc pdfDoc newPdf : list Page) (w : world Page)
  (parts : list (list Page)) (ranges : list string).

Lemma part_entries_in_downloads parts w :
  Forall (fun e => files (after_parts parts w) !! JS.path_join "downloads" e.1 = Some e.2)
    (part_entries (clock w) (ticks w) parts).
Proof.
  apply Forall_lookup. intros i [name bytes] Hi. unfold part_entries in Hi.
  apply list_lookup_imap_Some in Hi as (pages & Hpages & [= -> ->]). simpl.
  by apply with_downloads_part_lookup.
Qed.

Lemma part_names_in_downloads parts w :
  Forall (fun name => is_Some (files (after_parts parts w) !! JS.path_join "downloads" name))
    ((part_entries (clock w) (ticks w) parts).*1).
Proof.
  apply Forall_fmap. eapply Forall_impl; [apply part_entries_in_downloads|].
  intros e He. by exists e.2.
Qed.

(** A request whose mode made the parts [parts] answers with their archive. *)
Lemma split_handler_returns body file pdfDoc parts w :
  files w !! path file = Some (PdfBytes pdfDoc) ->
  split_parts body pdfDoc (getPageCount pdfDoc) [] w
    = (Returns ((part_entries (clock w) (ticks w) parts).*1), after_parts parts w) ->
  split_handler body (Some file) w = (Returns (split_response parts w), after_split file parts w).
Proof.
  intros Hfile Hparts. unfold split_handler, try_catch.
  erewrite bind_returns; last first.
  { unfold readFile. by rewrite Hfile. }
  erewrite bind_returns; last by reflexivity.
  erewrite bind_returns; last by reflexivity.
  erewrite bind_returns; last exact Hparts.
  rewrite send_archive_run.
  - unfold split_response, after_split. simpl.
    by rewrite length_fmap, part_entries_length.
  - simpl. rewrite with_downloads_upload_lookup, Hfile. by eexists.
  - by apply part_names_in_downloads.
Qed.

(** A request whose mode threw answers 500 and leaves the world as the
    exception found it. *)
Lemma split_handler_throws body file pdfDoc e w w' :
  files w !! path file = Some (PdfBytes pdfDoc) ->
  split_parts body pdfDoc (getPageCount pdfDoc) [] w = (Throws e, w') ->
  split_handler body (Some file) w = (Returns (ServerError e), w').
Proof.
  intros Hfile Hparts. unfold split_handler, try_catch.
  erewrite bind_returns; last first.
  { unfold readFile. by rewrite Hfile. }
  erewrite bind_returns; last by reflexivity.
  erewrite bind_returns; last by reflexivity.
  erewrite bind_throws; [done|exact Hparts].
Qed.

Lemma part_entries_documents clk t parts :
  (part_entries clk t parts).*2 = PdfBytes <$> (with_default_page <$> parts).
Proof.
  induction parts as [|pages parts IH] using rev_ind; [done|].
  rewrite part_entries_snoc, !fmap_app, IH. done.
Qed.

(** The archive of a successful split holds the part files, each once,
    in the order archiver took them up. *)
Lemma archive_after_split file parts w :
  exists entries,
    files (after_split file parts w)
      !! JS.path_join "downloads" (zip_name (clock w (ticks w + length parts)%nat))
    = Some (ZipBytes entries)
    /\ entries ≡ₚ part_entries (clock w) (ticks w) parts.
Proof.
  eexists. split.
  - unfold after_split. simpl. apply lookup_insert_eq.
  - apply archive_order_entries. apply (part_entries_in_downloads parts w).
Qed.

Lemma part_is_no_zip (i now now' : Z) :
  JS.path_join "downloads" (part_name i now) <> JS.path_join "downloads" (zip_name now').
Proof. discriminate. Qed.

(** After a successful split the file of part [i] holds what [save]
    wrote. *)
Lemma after_split_part_lookup file parts w (i : nat) pages :
  parts !! i = Some pages ->
  files (after_split file parts w)
    !! JS.path_join "downloads" (part_name_at (clock w) (ticks w) i)
  = Some (PdfBytes (with_default_page pages)).
Proof.
  intros Hi. unfold after_split. simpl.
  rewrite lookup_insert_ne by apply not_eq_sym, part_is_no_zip.
  rewrite lookup_delete_ne by apply not_eq_sym, downloads_not_uploads.
  by apply with_downloads_part_lookup.
Qed.

(** The archive a successful split answers with holds the parts as
    [save] wrote them. *)
Lemma archived_documents_after_split file parts w :
  exists docs,
    archived_documents (split_response parts w) (after_split file parts w) = Some docs
    /\ docs ≡ₚ PdfBytes <$> (with_default_page <$> parts).
Proof.
  destruct (archive_after_split file parts w) as (entries & Hzip & Hperm).
  exists (entries.*2). split.
  - unfold archived_documents, split_response. by rewrite Hzip.
  - by rewrite Hperm, part_entries_documents.
Qed.

Lemma Math_ceil_div_bounds (T P : Z) :
  0 < P -> (Math_ceil_div T P - 1) * P < T <= Math_ceil_div T P * P.
Proof.
  intros HP. unfold Math_ceil_div.
  pose proof (Z.div_mod (- T) P ltac:(lia)) as Hdiv.
  pose proof (Z.mod_pos_bound (- T) P HP) as Hmod. nia.
Qed.


(** One turn of the size loop. *)
Lemma size_part_run pdfDoc pagesPerPart (i : nat) outputFiles w :
  0 <= pagesPerPart ->
  size_part pdfDoc (getPageCount pdfDoc) pagesPerPart (Z.of_nat i) outputFiles w
  = write_part (Z.of_nat i)
      (slice pdfDoc (Z.of_nat i * pagesPerPart)
         (Z.min (Z.of_nat i * pagesPerPart + pagesPerPart) (getPageCount pdfDoc)
          - Z.of_nat i * pagesPerPart))
      outputFiles w.
Proof.
  intros Hc. unfold size_part.
  erewrite bind_returns; last by reflexivity.
  erewrite bind_returns; last first.
  { rewrite for_loop_iterations; rewrite iterations_lt by lia.
    - apply copy_group_returns. apply pages_at_seqZ; nia.
    - rewrite length_seqZ. lia. }
  done.
Qed.

Lemma size_parts_lookup pdfDoc P (i : nat) pages :
  size_parts pdfDoc P !! i = Some pages ->
  Z.of_nat i < P
  /\ pages = slice pdfDoc (Z.of_nat i * Math_ceil_div (getPageCount pdfDoc) P)
               (Z.min (Z.of_nat i * Math_ceil_div (getPageCount pdfDoc) P
                       + Math_ceil_div (getPageCount pdfDoc) P) (getPageCount pdfDoc)
                - Z.of_nat i * Math_ceil_div (getPageCount pdfDoc) P).
Proof.
  unfold size_parts. rewrite list_lookup_fmap. intros H.
  destruct (seqZ 0 P !! i) as [j|] eqn:Hj; [|done].
  apply lookup_seqZ in Hj as [-> Hlt]. simpl in H. injection H as <-.
  rewrite Z.add_0_l. done.
Qed.

Lemma size_parts_length pdfDoc P : length (size_parts pdfDoc P) = Z.to_nat P.
Proof. unfold size_parts. by rewrite length_fmap, length_seqZ. Qed.

Lemma size_parts_nil pdfDoc P : P <= 0 -> size_parts pdfDoc P = [].
Proof. intros HP. unfold size_parts. by rewrite seqZ_nil. Qed.

Lemma is_infinite_false (n : Z) : Z.abs n <= 2 ^ 53 + 1 -> JS.is_infinite n = false.
Proof.
  intros Hn. unfold JS.is_infinite.
  assert (2 ^ 53 + 1 < 2 ^ 1024 - 2 ^ 970) by by vm_compute.
  destruct (Z.leb_spec (2 ^ 1024 - 2 ^ 970) (Z.abs n)); [lia|done].
Qed.

(** The size mode for a part count that parsed and that the counter can
    reach: a count that, as a number, is at most [2^53]. *)
Lemma split_size_reached pdfDoc numParts n w :
  JS.parseInt numParts = Some n ->
  JS.to_number n <= 2 ^ 53 ->
  split_size pdfDoc (getPageCount pdfDoc) numParts [] w
  = (Returns ((part_entries (clock w) (ticks w) (size_parts pdfDoc (JS.to_number n))).*1),
     after_parts (size_parts pdfDoc (JS.to_number n)) w).
Proof.
  intros HP Hmax. unfold split_size. rewrite HP. cbv zeta.
  set (P := JS.to_number n) in *.
  destruct (Z.le_gt_cases P 0) as [Hle|Hpos].
  { rewrite size_parts_nil by done. simpl.
    destruct (Z.ltb_spec 0 P); [lia|].
    destruct w. unfold after_parts, ret. simpl. by rewrite Nat.add_0_r. }
  assert (JS.is_infinite n = false) as ->.
  { apply is_infinite_false.
    destruct (Z.le_gt_cases n 0) as [Hn|Hn].
    - pose proof (proj2 (to_number_sign n) Hn). unfold P in *. lia.
    - destruct (Z.le_gt_cases (2 ^ 53 + 2) n) as [Hbig|Hsmall].
      + apply to_number_above in Hbig. unfold P in *. lia.
      + lia. }
  rewrite count_loop_exact; [|lia|intros j _ Hj; apply Z.ltb_lt in Hj; lia].
  rewrite for_loop_iterations; rewrite iterations_lt by lia.
  - rewrite Z.sub_0_r.
    replace (seqZ 0 P) with (seqZ 0 (Z.of_nat (length (size_parts pdfDoc P)))).
    2:{ rewrite size_parts_length. by rewrite Z2Nat.id by lia. }
    apply part_loop_run. intros i pages Hi outputFiles w'.
    apply size_parts_lookup in Hi as [Hlt ->].
    apply size_part_run.
    pose proof (Math_ceil_div_bounds (getPageCount pdfDoc) P ltac:(lia)) as Hb.
    unfold getPageCount in *. nia.
  - rewrite length_seqZ. lia.
Qed.

Lemma size_parts_to_number pdfDoc P :
  P <= 2 ^ 53 -> size_parts pdfDoc (JS.to_number P) = size_parts pdfDoc P.
Proof.
  intros HP. destruct (Z.le_gt_cases (- 2 ^ 53) P).
  - by rewrite to_number_exact by lia.
  - rewrite !size_parts_nil; [done|lia|]. apply to_number_sign. lia.
Qed.

Lemma split_size_run pdfDoc numParts P w :
  JS.parseInt numParts = Some P ->
  P <= 2 ^ 53 ->
  split_size pdfDoc (getPageCount pdfDoc) numParts [] w
  = (Returns ((part_entries (clock w) (ticks w) (size_parts pdfDoc P)).*1),
     after_parts (size_parts pdfDoc P) w).
Proof.
  intros HP Hmax. rewrite <- (size_parts_to_number pdfDoc P) by done.
  apply split_size_reached; [done|].
  destruct (Z.le_gt_cases (- 2 ^ 53) P).
  - by rewrite to_number_exact by lia.
  - pose proof (proj2 (to_number_sign P) ltac:(lia)). lia.
Qed.

(** Beyond [2^53] the size loop does not end. *)
Lemma split_size_never_ends pdfDoc numParts n w :
  JS.parseInt numParts = Some n ->
  2 ^ 53 < JS.to_number n ->
  (split_size pdfDoc (getPageCount pdfDoc) numParts [] w).1 = OutOfFuel.
Proof.
  intros HP Hmax. unfold split_size. rewrite HP. cbv zeta.
  apply count_loop_never_ends; [done|by vm_compute|].
  intros j acc w0 Hj.
  rewrite <- (Z2Nat.id j) by lia. rewrite size_part_run, write_part_run; [by eexists _, _|].
  destruct (JS.is_infinite n); [lia|].
  pose proof (Math_ceil_div_bounds (getPageCount pdfDoc) (JS.to_number n) ltac:(lia)).
  unfold getPageCount in *. nia.
Qed.



End SplitHandler.

(** ** The merge handler *)

Section Merge.

Context {Page : Type} `{!Libraries Page}.

Implicit Types (doc pdfDoc mergedPdf : list Page) (w : world Page)
  (docs : list (list Page)) (uploads : list multer_file).

Lemma foldl_addPage mergedPdf (pages : list Page) :
  foldl addPage mergedPdf pages = mergedPdf ++ pages.
Proof.
  revert mergedPdf. induction pages as [|page pages IH]; intros mergedPdf; simpl.
  - by rewrite app_nil_r.
  - rewrite IH. unfold addPage. by rewrite <- app_assoc.
Qed.

Lemma copyPages_pages_at doc indices w :
  copyPages doc indices w
  = match pages_at doc indices with
    | Some pages => (Returns pages, w)
    | None => (Throws (TypeError "node"), w)
    end.
Proof.
  unfold pages_at. induction indices as [|idx indices IH]; simpl; [done|].
  destruct (page_at doc idx) as [page|]; simpl; [|done].
  unfold bind. rewrite IH. by destruct (mapM (page_at doc) indices).
Qed.

Lemma pages_at_all doc : pages_at doc (getPageIndices doc) = Some doc.
Proof.
  unfold getPageIndices. rewrite pages_at_seqZ by lia. by rewrite slice_all.
Qed.

(** One turn of the merge loop on an upload that is a PDF. *)
Lemma merge_file_run file doc mergedPdf w :
  files w !! path file = Some (PdfBytes doc) ->
  merge_file file mergedPdf w
  = (Returns (mergedPdf ++ doc), World (delete (path file) (files w)) (clock w) (ticks w)).
Proof.
  intros Hfile. unfold merge_file.
  erewrite bind_returns; last first.
  { unfold readFile. by rewrite Hfile. }
  erewrite bind_returns; last by reflexivity.
  erewrite bind_returns; last by reflexivity.
  erewrite bind_returns; last first.
  { rewrite copyPages_pages_at, pages_at_all. reflexivity. }
  erewrite bind_returns; last first.
  { unfold unlink. by rewrite Hfile. }
  by rewrite foldl_addPage.
Qed.

Lemma merge_loop_run uploads docs mergedPdf w :
  Forall2 (fun file doc => files w !! path file = Some (PdfBytes doc)) uploads docs ->
  NoDup (path <$> uploads) ->
  for_of uploads merge_file mergedPdf w
  = (Returns (mergedPdf ++ concat docs),
     World (foldl (fun m file => delete (path file) m) (files w) uploads) (clock w) (ticks w)).
Proof.
  intros H. revert docs mergedPdf w H.
  induction uploads as [|file uploads IH]; intros docs mergedPdf w H Hnodup.
  - apply Forall2_nil_inv_l in H as ->. simpl. rewrite app_nil_r. by destruct w.
  - apply Forall2_cons_inv_l in H as (doc & docs' & Hfile & Hrest & ->).
    rewrite fmap_cons in Hnodup. apply NoDup_cons in Hnodup as [Hnotin Hnodup].
    simpl. erewrite bind_returns; last by apply merge_file_run.
    rewrite IH with (docs := docs'); [by rewrite <- app_assoc| |done].
    apply Forall2_same_length_lookup_2; [by eapply Forall2_length|].
    intros i f d Hf Hd. simpl. rewrite lookup_delete_ne.
    + by eapply (Forall2_lookup_lr _ _ _ _ _ _ Hrest).
    + intros Heq. apply Hnotin. rewrite Heq.
      apply list_elem_of_fmap_2. by eapply list_elem_of_lookup_2.
Qed.

(** Merging uploads that are PDFs, stored under distinct paths. *)
Lemma merge_handler_run uploads docs w :
  (2 <= length uploads)%nat ->
  Forall2 (fun file doc => files w !! path file = Some (PdfBytes doc)) uploads docs ->
  NoDup (path <$> uploads) ->
  merge_handler (Some uploads) w
  = (Returns (merge_response uploads w), after_merge uploads (concat docs) w).
Proof.
  intros Hlen Hdocs Hnodup. unfold merge_handler, try_catch.
  destruct (Z.ltb_spec (Z.of_nat (length uploads)) 2); [lia|].
  erewrite bind_returns; last by reflexivity.
  erewrite bind_returns; last by apply merge_loop_run.
  reflexivity.
Qed.

Lemma merge_file_downloads file mergedPdf w r w' :
  merge_file file mergedPdf w = (r, w') -> downloads_unchanged w w'.
Proof.
  unfold merge_file, bind, readFile, unlink, PDFDocument_load, getPages, ret, throw.
  intros H name.
  destruct (files w !! path file) as [[doc| |entries|raw]|] eqn:Hfile;
    try (injection H as _ <-; done).
  rewrite copyPages_pages_at in H.
  destruct (pages_at doc (getPageIndices doc)); [|injection H as _ <-; done].
  rewrite Hfile in H. injection H as _ <-. simpl.
  rewrite lookup_delete_ne; [done|]. intros Heq. symmetry in Heq.
  by apply downloads_not_uploads in Heq.
Qed.

Lemma merge_loop_downloads uploads mergedPdf w r w' :
  for_of uploads merge_file mergedPdf w = (r, w') -> downloads_unchanged w w'.
Proof.
  revert mergedPdf w. induction uploads as [|file uploads IH]; intros mergedPdf w H name.
  - injection H as _ <-. done.
  - simpl in H. unfold bind in H.
    destruct (merge_file file mergedPdf w) as [[merged| |] w1] eqn:Hfile.
    + rewrite (IH _ _ H name). by eapply merge_file_downloads.
    + injection H as _ <-. by eapply merge_file_downloads.
    + injection H as _ <-. by eapply merge_file_downloads.
Qed.

End Merge.

(** * The claims *)

(** ** Resolution of one token *)

Lemma interval_group_below T start end_ :
  Forall (fun p => p < T) (interval_group T start end_).
Proof.
  destruct start as [s|], end_ as [e|]; try by constructor.
  rewrite interval_group_seqZ. apply Forall_seqZ. lia.
Qed.

Lemma single_group_below T pageNum :
  Forall (fun p => p < T) (single_group T pageNum).
Proof.
  unfold single_group. destruct pageNum as [n|]; [|by constructor].
  destruct (Z.ltb_spec n T); repeat constructor. done.
Qed.

Lemma token_group_below T range :
  Forall (fun p => p < T) (token_group T range).
Proof.
  unfold token_group. destruct (JS.includes "-" range).
  - destruct (range_bounds range). apply interval_group_below.
  - apply single_group_below.
Qed.


(** C1.  An interval token [Interval(a,b)], of 1-based inclusive bounds,
    against a document of [totalPages] pages: the loop of the range
    branch asks for exactly the 0-based indices
    [[i-1 for i in a..b if i-1 < totalPages]], and the part is the copy
    of that group.  Nothing checks that [a <= b]: when [a > b] the group
    is empty and the part receives no page.  From page 1 on, the part
    receives exactly the pages at those indices, in order.  A token
    string whose two numbers parse to [a] and [b] is resolved that way.
    (Below page 1 the list starts with a negative index, as the
    comprehension does, and copying that index throws.) *)
Theorem interval_token_resolution {Page : Type} (pdfDoc newPdf : list Page)
    (a b : Z) (w : world Page) :
  let totalPages := getPageCount pdfDoc in
  let group := interval_group totalPages (Some (a - 1)) (Some (b - 1)) in
  let copied := copy_range pdfDoc totalPages (Some (a - 1)) (Some (b - 1)) newPdf w in
  group = spec_interval_group a b totalPages
  /\ copied = for_of group (copy_one pdfDoc) newPdf w
  /\ (b < a -> group = [] /\ copied = (Returns newPdf, w))
  /\ (1 <= a ->
      exists pages, pages_at pdfDoc group = Some pages
                    /\ copied = (Returns (newPdf ++ pages), w))
  /\ (forall range,
        JS.includes "-" range = true ->
        range_bounds range = (Some (a - 1), Some (b - 1)) ->
        token_group totalPages range = group
        /\ copy_token pdfDoc totalPages range newPdf w = copied)
  /\ (a < 1 -> a <= b -> copied = (Throws (TypeError "node"), w)).
Proof.
  intros totalPages group copied.
  assert (Hgroup : group = seqZ (a - 1) (Z.min b totalPages - (a - 1))).
  { unfold group. rewrite interval_group_seqZ. f_equal. lia. }
  assert (Hcopied : copied = for_of group (copy_one pdfDoc) newPdf w)
    by apply copy_range_group.
  split; [by rewrite spec_interval_group_seqZ|].
  split; [done|]. split; [|split; [|split]].
  - intros Hba. assert (group = []) as Hnil by (rewrite Hgroup; apply seqZ_nil; lia).
    split; [done|]. by rewrite Hcopied, Hnil.
  - intros Ha. exists (slice pdfDoc (a - 1) (Z.min b totalPages - (a - 1))).
    assert (pages_at pdfDoc group
            = Some (slice pdfDoc (a - 1) (Z.min b totalPages - (a - 1)))) as Hpages.
    { rewrite Hgroup. apply pages_at_seqZ; unfold totalPages; lia. }
    split; [done|]. rewrite Hcopied. by apply copy_group_returns.
  - intros range Hdash Hbounds. unfold token_group, copy_token.
    by rewrite Hdash, Hbounds.
  - intros Ha Hab. rewrite Hcopied, Hgroup.
    assert (0 <= totalPages) by (unfold totalPages, getPageCount; lia).
    rewrite seqZ_cons by lia. apply copy_group_throws. apply page_at_negative. lia.
Qed.

Lemma interval_token_resolution_witness :
  interval_group 10 (Some 8) (Some 11) = [8; 9]
  /\ exists pages,
       pages_at sample_doc (interval_group 10 (Some 8) (Some 11)) = Some pages
       /\ copy_range sample_doc 10 (Some 8) (Some 11) [] sample_world
          = (Returns ([] ++ pages), sample_world).
Proof.
  destruct (interval_token_resolution sample_doc [] 9 12 sample_world)
    as (Hgroup & _ & _ & Hpages & _).
  split; [exact Hgroup|]. apply Hpages. lia.
Defined.

(** The single-page branch, case by case: inside the document the
    group is [[n-1]]; above it the group is empty; below page 1 the test
    [pageNum < totalPages] still passes, the group is [[n-1]] and the
    copy throws. *)
Lemma single_token_cases {Page : Type} (pdfDoc newPdf : list Page) (n : Z) (w : world Page) :
  let totalPages := getPageCount pdfDoc in
  let group := single_group totalPages (Some (n - 1)) in
  let copied := copy_single pdfDoc totalPages (Some (n - 1)) newPdf w in
  (1 <= n <= totalPages ->
   group = [n - 1]
   /\ exists page, pdfDoc !! Z.to_nat (n - 1) = Some page
                   /\ copied = (Returns (newPdf ++ [page]), w))
  /\ (totalPages < n -> group = [] /\ copied = (Returns newPdf, w))
  /\ (n < 1 -> group = [n - 1] /\ copied = (Throws (TypeError "node"), w)).
Proof.
  intros totalPages group copied. unfold group, copied, single_group, copy_single.
  assert (0 <= totalPages) by (unfold totalPages, getPageCount; lia).
  split; [|split]; intros Hn; (destruct (Z.ltb_spec (n - 1) totalPages); [|try lia]).
  - split; [done|].
    destruct (lookup_lt_is_Some_2 pdfDoc (Z.to_nat (n - 1))) as [page Hpage].
    { unfold totalPages, getPageCount in *. lia. }
    exists page. split; [done|]. apply copy_one_returns.
    by rewrite page_at_lookup by lia.
  - lia.
  - done.
  - split; [done|]. apply copy_one_throws. apply page_at_negative. lia.
Qed.

(** C2, at the failing input.  The token ["0"] over the ten-page sample
    does not resolve to the empty group: the handler asks pdf-lib for
    index -1 and the request ends in a 500. *)
Theorem single_token_zero_throws :
  token_group (getPageCount sample_doc) "0" = [-1]
  /\ (split_handler (SplitBody (Some "pages") (Some "0") None)
        (Some sample_upload) sample_world).1
     = Returns (ServerError (TypeError "node")).
Proof. split; reflexivity. Qed.

(** ** Invariant: no index at or beyond the page count *)




(** ** Requests that name no mode *)

Lemma strict_eq_true (v : option value) (lit : string) :
  JS.strict_eq v lit = true <-> v = Some lit.
Proof.
  destruct v as [[s|s]|]; simpl; [|done..].
  rewrite String.eqb_eq. split; [by intros ->|by intros [= ->]].
Qed.

Lemma strict_eq_false (v : option value) (lit : string) :
  JS.strict_eq v lit = false <-> v <> Some lit.
Proof.
  rewrite <- strict_eq_true. by destruct (JS.strict_eq v lit).
Qed.

Lemma archive_order_nil {Page : Type} `{!Libraries Page} : archive_order [] = [].
Proof. apply Permutation_nil_r, archive_order_perm. Qed.

Lemma after_parts_nil {Page : Type} `{!Libraries Page} (w : world Page) :
  after_parts [] w = w.
Proof. destruct w. unfold after_parts. simpl. by rewrite Nat.add_0_r. Qed.

(** The requests of C10 make no part. *)
Lemma split_parts_none {Page : Type} `{!Libraries Page} (pdfDoc : list Page)
    (body : split_body) (w : world Page) :
  (splitOption body <> Some "pages" /\ splitOption body <> Some "size")
  \/ (splitOption body = Some "pages" /\ JS.truthy (pageRanges body) = false)
  \/ (splitOption body = Some "size"
      /\ (JS.truthy (numParts body) = false
          \/ exists s : string, numParts body = Some s /\ JS.parseInt s = Some 0)) ->
  split_parts body pdfDoc (getPageCount pdfDoc) [] w = (Returns [], w).
Proof.
  unfold split_parts.
  intros [[Hpages Hsize]|[[Hpages Hfalsy]|[Hsize Hparts]]].
  - apply strict_eq_false in Hpages, Hsize. by rewrite Hpages, Hsize.
  - rewrite Hpages, Hfalsy. done.
  - destruct Hparts as [Hfalsy|(s & Hs & Hzero)].
    + by rewrite Hsize, Hfalsy.
    + rewrite Hsize, Hs. destruct s; [done|]. simpl.
      rewrite (split_size_run _ _ 0) by done.
      change (size_parts pdfDoc 0) with (@nil (list Page)).
      by rewrite after_parts_nil.
Qed.

(** C10.  A split request on an uploaded PDF whose mode selector is
    neither ['pages'] nor ['size'], or whose mode parameter is missing
    or falsy, or whose part count parses to 0, is not rejected: the
    handler succeeds and answers with an archive of zero part files. *)
Theorem split_without_parts_succeeds {Page : Type} `{!Libraries Page}
    (pdfDoc : list Page) (file : multer_file) (body : split_body) (w : world Page) :
  files w !! path file = Some (PdfBytes pdfDoc) ->
  (splitOption body <> Some "pages" /\ splitOption body <> Some "size")
  \/ (splitOption body = Some "pages" /\ JS.truthy (pageRanges body) = false)
  \/ (splitOption body = Some "size"
      /\ (JS.truthy (numParts body) = false
          \/ exists s : string, numParts body = Some s /\ JS.parseInt s = Some 0)) ->
  let zipFilename := zip_name (clock w (ticks w)) in
  exists w',
    split_handler body (Some file) w
    = (Returns (Success zipFilename ("/downloads/" +:+ zipFilename) "Split into 0 files"), w')
    /\ files w' !! JS.path_join "downloads" zipFilename = Some (ZipBytes [])
    /\ files w' !! path file = None.
Proof.
  intros Hfile Hmode zipFilename. exists (after_split file [] w).
  split; [|split].
  - rewrite (split_handler_returns body file pdfDoc []); try done.
    + unfold split_response, zipFilename. simpl. by rewrite Nat.add_0_r.
    + rewrite after_parts_nil. by apply split_parts_none.
  - unfold after_split, zipFilename. simpl.
    rewrite Nat.add_0_r, archive_order_nil. apply lookup_insert_eq.
  - unfold after_split. simpl. rewrite lookup_insert_ne by apply downloads_not_uploads.
    apply lookup_delete_eq.
Qed.

Lemma split_without_parts_succeeds_witness :
  exists w',
    split_handler (SplitBody (Some "rotate") (Some "1-3") None) (Some sample_upload) sample_world
    = (Returns (Success "split-files-1000.zip" "/downloads/split-files-1000.zip"
                  "Split into 0 files"), w')
    /\ files w' !! "downloads/split-files-1000.zip" = Some (ZipBytes [])
    /\ files w' !! "uploads/999-a.pdf" = None.
Proof.
  apply (split_without_parts_succeeds sample_doc sample_upload
           (SplitBody (Some "rotate") (Some "1-3") None) sample_world).
  - reflexivity.
  - left. split; discriminate.
Defined.

(** ** Merge: validation *)

(** C8.  A merge request with fewer than two files (one, none, or no
    [files] field at all) is answered 400 with the message that at least
    2 files are required; nothing is read, written or deleted. *)
Theorem merge_rejects_fewer_than_two {Page : Type} `{!Libraries Page}
    (req_files : option (list multer_file)) (w : world Page) :
  (forall uploads, req_files = Some uploads -> (length uploads < 2)%nat) ->
  merge_handler req_files w
  = (Returns (BadRequest "At least 2 files required for merging"), w).
Proof.
  intros Hfew. unfold merge_handler, try_catch.
  destruct req_files as [uploads|]; [|done].
  specialize (Hfew uploads eq_refl).
  destruct (Z.ltb_spec (Z.of_nat (length uploads)) 2); [done|lia].
Qed.

Lemma merge_rejects_fewer_than_two_witness :
  merge_handler (Some [sample_upload]) sample_world
  = (Returns (BadRequest "At least 2 files required for merging"), sample_world).
Proof.
  apply (merge_rejects_fewer_than_two (Some [sample_upload]) sample_world).
  intros uploads [= <-]. simpl. lia.
Defined.

(** ** Merge: the output *)

(** C4, as stated, fails for sources without pages: merging two PDFs of
    0 pages gives a document of 1 page, the blank page that [save] puts
    into an empty document, and not one of [0 + 0] pages. *)
Lemma merge_of_empty_documents_has_a_page :
  let request :=
    merge_handler
      (Some [MulterFile "1-a.pdf" "a.pdf"; MulterFile "2-b.pdf" "b.pdf"])
      (World {[ "uploads/1-a.pdf" := PdfBytes []; "uploads/2-b.pdf" := PdfBytes [] ]}
         sample_clock 0) in
  request.1 = Returns (Success "merged-1000.pdf" "/downloads/merged-1000.pdf"
                         "Merged 2 PDFs successfully")
  /\ files request.2 !! "downloads/merged-1000.pdf" = Some (PdfBytes [blankPage])
  /\ length [blankPage] <> (length (@nil Z) + length (@nil Z))%nat.
Proof. split; [|split]; [reflexivity|reflexivity|discriminate]. Qed.

(** It fails as well when two uploads are stored under one path, as
    multer does for two files of the same name in the same millisecond:
    the first turn deletes the file, the second cannot read it, and the
    request ends in a 500 without an output. *)
Lemma merge_of_one_path_twice_fails :
  let request :=
    merge_handler
      (Some [MulterFile "1-a.pdf" "a.pdf"; MulterFile "1-a.pdf" "a.pdf"])
      (World {[ "uploads/1-a.pdf" := PdfBytes [10; 11; 12] ]} sample_clock 0) in
  request.1 = Returns (ServerError (ENOENT "uploads/1-a.pdf"))
  /\ files request.2 !! "uploads/1-a.pdf" = None
  /\ files request.2 !! "downloads/merged-1000.pdf" = None.
Proof. split; [|split]; reflexivity. Qed.

Lemma with_default_page_nonempty {Page : Type} `{!Libraries Page} (doc : list Page) :
  doc <> [] -> with_default_page doc = doc.
Proof. by destruct doc. Qed.


(** C4, amended.  Merging at least two uploaded PDFs that are stored
    under distinct paths answers with one output document.  When the
    sources have a page between them, it holds every page of every
    source, the sources in the order the caller gave them and each
    source's pages in their original order: two sources [A] then [B]
    give [A]'s pages followed by [B]'s, [a + b] pages.  When no source
    has a page, it holds the one blank page that [save] adds.  No other
    file appears in [downloads]. *)
Theorem merge_concatenates_in_order {Page : Type} `{!Libraries Page}
    (uploads : list multer_file) (docs : list (list Page)) (w : world Page) :
  (2 <= length uploads)%nat ->
  Forall2 (fun file doc => files w !! path file = Some (PdfBytes doc)) uploads docs ->
  NoDup (path <$> uploads) ->
  let outputFilename := merged_name (clock w (ticks w)) in
  exists w' merged,
    merge_handler (Some uploads) w = (Returns (merge_response uploads w), w')
    /\ files w' !! JS.path_join "downloads" outputFilename = Some (PdfBytes merged)
    /\ (concat docs <> [] -> merged = concat docs)
    /\ (concat docs = [] -> merged = [blankPage])
    /\ length (concat docs) = sum_list (length <$> docs)
    /\ (forall A B, docs = [A; B] ->
          concat docs = A ++ B /\ length (concat docs) = (length A + length B)%nat)
    /\ (forall name, name <> outputFilename ->
          files w' !! JS.path_join "downloads" name
          = files w !! JS.path_join "downloads" name).
Proof.
  intros Hlen Hdocs Hnodup outputFilename.
  exists (after_merge uploads (concat docs) w), (with_default_page (concat docs)).
  split; [|split; [|split; [|split; [|split; [|split]]]]].
  - by apply merge_handler_run.
  - unfold after_merge. simpl. apply lookup_insert_eq.
  - apply with_default_page_nonempty.
  - by intros ->.
  - apply length_concat.
  - intros A B ->. simpl. rewrite app_nil_r. split; [done|apply length_app].
  - intros name Hname. unfold after_merge. simpl.
    rewrite lookup_insert_ne by (intros Heq; apply path_join_inj in Heq; done).
    clear. generalize (files w). induction uploads as [|file uploads IH]; intros fs; [done|].
    simpl. rewrite IH. apply lookup_delete_ne. apply not_eq_sym, downloads_not_uploads.
Qed.

Lemma merge_concatenates_in_order_witness :
  exists w',
    merge_handler
      (Some [MulterFile "1-a.pdf" "a.pdf"; MulterFile "2-b.pdf" "b.pdf"])
      (World {[ "uploads/1-a.pdf" := PdfBytes [10; 11; 12];
                "uploads/2-b.pdf" := PdfBytes [20; 21] ]}
         sample_clock 0)
    = (Returns (Success "merged-1000.pdf" "/downloads/merged-1000.pdf"
                  "Merged 2 PDFs successfully"), w')
    /\ files w' !! "downloads/merged-1000.pdf" = Some (PdfBytes [10; 11; 12; 20; 21]).
Proof.
  destruct (merge_concatenates_in_order
              [MulterFile "1-a.pdf" "a.pdf"; MulterFile "2-b.pdf" "b.pdf"]
              [[10; 11; 12]; [20; 21]]
              (World {[ "uploads/1-a.pdf" := PdfBytes [10; 11; 12];
                        "uploads/2-b.pdf" := PdfBytes [20; 21] ]}
                 sample_clock 0))
    as (w' & merged & Hrun & Hfile & Hpages & _).
  - simpl. lia.
  - repeat constructor.
  - apply (bool_decide_unpack _). vm_compute. exact I.
  - exists w'. split; [exact Hrun|]. rewrite Hpages in Hfile by discriminate. exact Hfile.
Defined.

(** ** Split by size *)





(** ** Split by range *)

Section RangeMode.

Context {Page : Type} `{!Libraries Page}.

Implicit Types (pdfDoc : list Page) (w : world Page) (parts : list (list Page))
  (ranges : list string).

(** Tokens whose groups have no negative index all have pages. *)
Lemma safe_tokens_have_pages pdfDoc ranges :
  Forall (fun range => Forall (fun p => 0 <= p) (token_group (getPageCount pdfDoc) range))
    ranges ->
  exists parts,
    Forall2 (fun range pages =>
               pages_at pdfDoc (token_group (getPageCount pdfDoc) range) = Some pages)
      ranges parts.
Proof.
  induction 1 as [|range ranges Hpos _ [parts IH]].
  - exists []. constructor.
  - destruct (pages_at_is_Some pdfDoc (token_group (getPageCount pdfDoc) range))
      as [pages Hpages].
    { pose proof (token_group_below (getPageCount pdfDoc) range) as Hlt.
      rewrite Forall_forall in *. intros p Hp. split; [by apply Hpos|by apply Hlt]. }
    exists (pages :: parts). by constructor.
Qed.

Lemma token_is_NaN_group T range :
  token_is_NaN range = true -> token_group T range = [].
Proof.
  unfold token_is_NaN, token_group. destruct (JS.includes "-" range).
  - by destruct (range_bounds range) as [[s|] [e|]].
  - by destruct (JS.parseInt range).
Qed.

Lemma split_parts_pages pdfDoc body (expression : string) w :
  splitOption body = Some "pages" ->
  pageRanges body = Some expression ->
  expression <> "" ->
  split_parts body pdfDoc (getPageCount pdfDoc) [] w
  = split_pages pdfDoc (getPageCount pdfDoc) expression [] w.
Proof.
  intros Hmode Hexpr Hne. unfold split_parts. rewrite Hmode, Hexpr. simpl.
  by destruct expression.
Qed.

Lemma pages_at_concat pdfDoc (groups : list (list Z)) parts :
  Forall2 (fun group pages => pages_at pdfDoc group = Some pages) groups parts ->
  pages_at pdfDoc (concat groups) = Some (concat parts).
Proof.
  intros H. unfold pages_at in *. apply mapM_Some.
  induction H as [|group pages groups parts Hpages _ IH]; simpl; [constructor|].
  apply Forall2_app; [by apply mapM_Some|done].
Qed.

Lemma elem_of_concat {A : Type} (x : A) (l : list A) (ls : list (list A)) :
  x ∈ l -> l ∈ ls -> x ∈ concat ls.
Proof.
  intros Hx Hl. induction Hl as [l ls|l l' ls _ IH]; simpl; apply elem_of_app; auto.
Qed.

Lemma zip_path_not_part (fs : gmap string (blob Page)) clk t parts now :
  with_downloads (part_entries clk t parts) fs !! JS.path_join "downloads" (zip_name now)
  = fs !! JS.path_join "downloads" (zip_name now).
Proof.
  induction parts as [|pages parts IH] using rev_ind; [done|].
  rewrite part_entries_snoc, with_downloads_snoc. simpl.
  rewrite lookup_insert_ne; [done|]. discriminate.
Qed.

End RangeMode.

(** C5, as stated, fails for a token beyond the document: ["11"] over
    the ten-page sample has the empty page group, yet its output
    document is not empty; it holds the blank page that [save] adds. *)
Lemma part_of_empty_group_has_a_page :
  let request :=
    split_handler (SplitBody (Some "pages") (Some "11") None) (Some sample_upload)
      sample_world in
  token_group (getPageCount sample_doc) "11" = []
  /\ request.1 = Returns (Success "split-files-1001.zip" "/downloads/split-files-1001.zip"
                            "Split into 1 files")
  /\ files request.2 !! "downloads/split-part1-1000.pdf" = Some (PdfBytes [blankPage])
  /\ files request.2 !! "downloads/split-files-1001.zip"
     = Some (ZipBytes [("split-part1-1000.pdf", PdfBytes [blankPage])]).
Proof. split; [|split; [|split]]; reflexivity. Qed.

(** It fails on the empty expression too, when that is counted as one
    comma-separated token: the guard [splitOption === 'pages' &&
    pageRanges] is false for it and the handler makes no part at all. *)
Lemma empty_expression_makes_no_part :
  length (JS.split "," "") = 1%nat
  /\ exists w',
       split_handler (SplitBody (Some "pages") (Some "") None)
         (Some sample_upload) sample_world
       = (Returns (Success "split-files-1000.zip" "/downloads/split-files-1000.zip"
                     "Split into 0 files"), w')
       /\ files w' !! "downloads/split-files-1000.zip" = Some (ZipBytes []).
Proof.
  split; [reflexivity|].
  exists (after_split sample_upload [] sample_world). split; reflexivity.
Qed.

(** C5, amended.  For a non-empty range expression in which no token
    asks for an index below 0, the range mode succeeds with exactly [N]
    output documents, [N] the number of comma-separated tokens: one per
    token, numbered in the order of the tokens, each holding the pages
    of its token's group.  A token with an empty group, such as one
    that does not parse as a number, does not abort the request: its
    document holds a single blank page.  The archive holds the [N]
    documents, in an order of its own. *)
Theorem split_by_range_parts {Page : Type} `{!Libraries Page} (pdfDoc : list Page)
    (file : multer_file) (body : split_body) (expression : string) (w : world Page) :
  files w !! path file = Some (PdfBytes pdfDoc) ->
  splitOption body = Some "pages" ->
  pageRanges body = Some expression ->
  expression <> "" ->
  let totalPages := getPageCount pdfDoc in
  let ranges := JS.trim <$> JS.split "," expression in
  Forall (fun range => Forall (fun p => 0 <= p) (token_group totalPages range)) ranges ->
  exists parts,
    split_handler body (Some file) w
    = (Returns (split_response parts w), after_split file parts w)
    /\ length parts = length (JS.split "," expression)
    /\ Forall2 (fun range pages =>
                  pages_at pdfDoc (token_group totalPages range) = Some pages)
         ranges parts
    /\ (forall (i : nat) pages, parts !! i = Some pages ->
          files (after_split file parts w)
            !! JS.path_join "downloads" (part_name_at (clock w) (ticks w) i)
          = Some (PdfBytes (with_default_page pages)))
    /\ (forall (i : nat) range,
          ranges !! i = Some range -> token_group totalPages range = [] ->
          parts !! i = Some []
          /\ files (after_split file parts w)
               !! JS.path_join "downloads" (part_name_at (clock w) (ticks w) i)
             = Some (PdfBytes [blankPage]))
    /\ (forall range, token_is_NaN range = true -> token_group totalPages range = [])
    /\ (exists docs,
          archived_documents (split_response parts w) (after_split file parts w) = Some docs
          /\ docs ≡ₚ PdfBytes <$> (with_default_page <$> parts)).
Proof.
  intros Hfile Hmode Hexpr Hne totalPages ranges Hsafe.
  destruct (safe_tokens_have_pages pdfDoc ranges Hsafe) as [parts Hparts].
  exists parts. split; [|split; [|split; [|split; [|split; [|split]]]]].
  - apply (split_handler_returns _ _ pdfDoc); [done|].
    rewrite (split_parts_pages _ _ expression) by done. by apply split_pages_run.
  - rewrite <- (Forall2_length _ _ _ Hparts). unfold ranges. by rewrite length_fmap.
  - done.
  - intros i pages Hi. by apply after_split_part_lookup.
  - intros i range Hi Hempty.
    destruct (Forall2_lookup_l _ _ _ _ _ Hparts Hi) as (pages & Hpages & Hgroup).
    unfold totalPages in Hempty. rewrite Hempty in Hgroup. simpl in Hgroup.
    injection Hgroup as <-.
    split; [done|]. by rewrite (after_split_part_lookup _ _ _ _ [] Hpages).
  - intros range. apply token_is_NaN_group.
  - apply archived_documents_after_split.
Qed.

Lemma split_by_range_parts_witness :
  exists parts,
    split_handler (SplitBody (Some "pages") (Some "1-3, x, 9-12") None)
      (Some sample_upload) sample_world
    = (Returns (split_response parts sample_world),
       after_split sample_upload parts sample_world)
    /\ length parts = 3%nat
    /\ files (after_split sample_upload parts sample_world)
         !! "downloads/split-part2-1001.pdf"
       = Some (PdfBytes [blankPage]).
Proof.
  destruct (split_by_range_parts sample_doc sample_upload
              (SplitBody (Some "pages") (Some "1-3, x, 9-12") None)
              "1-3, x, 9-12" sample_world)
    as (parts & Hrun & Hlen & _ & _ & Hempty & _).
  - reflexivity.
  - reflexivity.
  - reflexivity.
  - discriminate.
  - apply (bool_decide_unpack _). vm_compute. exact I.
  - exists parts. split; [exact Hrun|]. split; [exact Hlen|].
    apply (Hempty 1%nat "x"); reflexivity.
Defined.

(** ** Round trip: split by range, then merge *)

(** C6, as stated, fails for a range set of one range: ["1-10"] covers
    the ten-page sample, the split makes one part, and a merge of one
    file is refused. *)
Lemma round_trip_of_one_range_is_refused :
  concat (token_group (getPageCount sample_doc) <$> (JS.trim <$> JS.split "," "1-10"))
  = seqZ 0 (getPageCount sample_doc)
  /\ split_handler (SplitBody (Some "pages") (Some "1-10") None)
       (Some sample_upload) sample_world
     = (Returns (split_response [sample_doc] sample_world),
        after_split sample_upload [sample_doc] sample_world)
  /\ merge_handler (Some [MulterFile "1002-split-part1-1000.pdf" "split-part1-1000.pdf"])
       (World {[ "uploads/1002-split-part1-1000.pdf" := PdfBytes sample_doc ]}
          sample_clock 2)
     = (Returns (BadRequest "At least 2 files required for merging"),
        World {[ "uploads/1002-split-part1-1000.pdf" := PdfBytes sample_doc ]}
          sample_clock 2).
Proof. split; [|split]; reflexivity. Qed.

(** It fails as well for a set with a token that has no page: the
    groups of ["1-5,x,6-10"] one after the other are the ten indices,
    but the part of ["x"] is saved with a blank page, and the merge of
    the three parts has eleven pages. *)
Lemma round_trip_with_empty_token_adds_a_page :
  let split :=
    split_handler (SplitBody (Some "pages") (Some "1-5,x,6-10") None)
      (Some sample_upload) sample_world in
  let part (i : nat) :=
    files split.2 !! JS.path_join "downloads" (part_name_at sample_clock 0 i) in
  let merge :=
    merge_handler
      (Some [MulterFile "2000-part1.pdf" "part1.pdf";
             MulterFile "2000-part2.pdf" "part2.pdf";
             MulterFile "2000-part3.pdf" "part3.pdf"])
      (World {[ "uploads/2000-part1.pdf" := PdfBytes [100; 101; 102; 103; 104];
                "uploads/2000-part2.pdf" := PdfBytes [blankPage];
                "uploads/2000-part3.pdf" := PdfBytes [105; 106; 107; 108; 109] ]}
         sample_clock 4) in
  concat (token_group (getPageCount sample_doc) <$> (JS.trim <$> JS.split "," "1-5,x,6-10"))
  = seqZ 0 (getPageCount sample_doc)
  /\ part 0%nat = Some (PdfBytes [100; 101; 102; 103; 104])
  /\ part 1%nat = Some (PdfBytes [blankPage])
  /\ part 2%nat = Some (PdfBytes [105; 106; 107; 108; 109])
  /\ merge.1 = Returns (Success "merged-1004.pdf" "/downloads/merged-1004.pdf"
                          "Merged 3 PDFs successfully")
  /\ files merge.2 !! "downloads/merged-1004.pdf"
     = Some (PdfBytes [100; 101; 102; 103; 104; blankPage; 105; 106; 107; 108; 109]).
Proof. repeat split; reflexivity. Qed.

Lemma pages_at_length {Page : Type} (pdfDoc : list Page) (group : list Z) pages :
  pages_at pdfDoc group = Some pages -> length pages = length group.
Proof. unfold pages_at. intros H. symmetry. by eapply length_mapM. Qed.

(** C6, amended.  Split a document by a range expression of at least
    two tokens, none of them with an empty page group, whose groups one
    after the other are exactly the indices [0 .. T-1]: a contiguous set
    of ranges that covers every page once.  There is one part per token,
    its file holds the pages of the token's group, and in order the
    parts are the document cut in pieces.  Uploading them in that order
    (under distinct names) and merging them gives back the original page
    sequence exactly. *)
Theorem split_then_merge_round_trip {Page : Type} `{!Libraries Page} (pdfDoc : list Page)
    (file : multer_file) (body : split_body) (expression : string) (w : world Page) :
  files w !! path file = Some (PdfBytes pdfDoc) ->
  splitOption body = Some "pages" ->
  pageRanges body = Some expression ->
  let totalPages := getPageCount pdfDoc in
  let ranges := JS.trim <$> JS.split "," expression in
  (2 <= length ranges)%nat ->
  Forall (fun range => token_group totalPages range <> []) ranges ->
  concat (token_group totalPages <$> ranges) = seqZ 0 totalPages ->
  exists parts,
    split_handler body (Some file) w
    = (Returns (split_response parts w), after_split file parts w)
    /\ Forall2 (fun range pages =>
                  pages_at pdfDoc (token_group totalPages range) = Some pages)
         ranges parts
    /\ (forall (i : nat) pages, parts !! i = Some pages ->
          files (after_split file parts w)
            !! JS.path_join "downloads" (part_name_at (clock w) (ticks w) i)
          = Some (PdfBytes pages))
    /\ concat parts = pdfDoc
    /\ (forall (uploads : list multer_file) (w2 : world Page),
          Forall2 (fun upload pages => files w2 !! path upload = Some (PdfBytes pages))
            uploads parts ->
          NoDup (path <$> uploads) ->
          exists w2',
            merge_handler (Some uploads) w2 = (Returns (merge_response uploads w2), w2')
            /\ files w2' !! JS.path_join "downloads" (merged_name (clock w2 (ticks w2)))
               = Some (PdfBytes pdfDoc)).
Proof.
  intros Hfile Hmode Hexpr totalPages ranges Hlen Hfull Hcover.
  assert (Hne : expression <> "").
  { intros ->. unfold ranges in Hlen. simpl in Hlen. lia. }
  assert (Hsafe : Forall (fun range => Forall (fun p => 0 <= p) (token_group totalPages range))
                    ranges).
  { apply Forall_forall. intros range Hrange. apply Forall_forall. intros p Hp.
    assert (p ∈ seqZ 0 totalPages) as Hin.
    { rewrite <- Hcover. apply (elem_of_concat _ (token_group totalPages range)); [done|].
      by apply list_elem_of_fmap_2. }
    apply elem_of_seqZ in Hin. lia. }
  destruct (safe_tokens_have_pages pdfDoc ranges Hsafe) as [parts Hparts].
  assert (Hconcat : concat parts = pdfDoc).
  { assert (pages_at pdfDoc (concat (token_group totalPages <$> ranges))
            = Some (concat parts)) as Hall.
    { apply pages_at_concat. by apply Forall2_fmap_l. }
    rewrite Hcover in Hall.
    change (seqZ 0 totalPages) with (getPageIndices pdfDoc) in Hall.
    rewrite pages_at_all in Hall. by injection Hall. }
  assert (Hpart : forall (i : nat) pages, parts !! i = Some pages -> pages <> []).
  { intros i pages Hi ->.
    destruct (Forall2_lookup_r _ _ _ _ _ Hparts Hi) as (range & Hrange & Hpages).
    apply pages_at_length in Hpages. rewrite Forall_lookup in Hfull.
    apply (Hfull i range Hrange). by apply nil_length_inv. }
  assert (Hdoc : pdfDoc <> []).
  { destruct parts as [|pages parts'] eqn:Hp.
    - apply Forall2_length in Hparts. simpl in Hparts. lia.
    - rewrite <- Hconcat. simpl. intros Hnil. apply app_eq_nil in Hnil as [Hnil _].
      by apply (Hpart 0%nat pages). }
  exists parts. split; [|split; [|split; [|split]]].
  - apply (split_handler_returns _ _ pdfDoc); [done|].
    rewrite (split_parts_pages _ _ expression) by done. by apply split_pages_run.
  - done.
  - intros i pages Hi. rewrite (after_split_part_lookup _ _ _ _ pages Hi).
    by rewrite with_default_page_nonempty by by eapply Hpart.
  - done.
  - intros uploads w2 Huploads Hnodup. exists (after_merge uploads pdfDoc w2). split.
    + rewrite <- Hconcat. apply merge_handler_run; [|done..].
      rewrite (Forall2_length _ _ _ Huploads), <- (Forall2_length _ _ _ Hparts). done.
    + unfold after_merge. simpl. rewrite lookup_insert_eq.
      by rewrite with_default_page_nonempty.
Qed.

Lemma split_then_merge_round_trip_witness :
  (exists parts,
     split_handler (SplitBody (Some "pages") (Some "1-4, 5, 6-10") None)
       (Some sample_upload) sample_world
     = (Returns (split_response parts sample_world),
        after_split sample_upload parts sample_world)
     /\ parts = [[100; 101; 102; 103]; [104]; [105; 106; 107; 108; 109]])
  /\ exists w',
       merge_handler
         (Some [MulterFile "2000-part1.pdf" "part1.pdf";
                MulterFile "2000-part2.pdf" "part2.pdf";
                MulterFile "2000-part3.pdf" "part3.pdf"])
         (World {[ "uploads/2000-part1.pdf" := PdfBytes [100; 101; 102; 103];
                   "uploads/2000-part2.pdf" := PdfBytes [104];
                   "uploads/2000-part3.pdf" := PdfBytes [105; 106; 107; 108; 109] ]}
            sample_clock 4)
       = (Returns (Success "merged-1004.pdf" "/downloads/merged-1004.pdf"
                     "Merged 3 PDFs successfully"), w')
       /\ files w' !! "downloads/merged-1004.pdf" = Some (PdfBytes sample_doc).
Proof.
  destruct (split_then_merge_round_trip sample_doc sample_upload
              (SplitBody (Some "pages") (Some "1-4, 5, 6-10") None)
              "1-4, 5, 6-10" sample_world)
    as (parts & Hrun & Hparts & _ & Hconcat & Hmerge).
  - reflexivity.
  - reflexivity.
  - reflexivity.
  - simpl. lia.
  - apply (bool_decide_unpack _). vm_compute. exact I.
  - reflexivity.
  - apply Forall2_cons_inv_l in Hparts as (p1 & parts1 & H1 & Hparts & ->).
    apply Forall2_cons_inv_l in Hparts as (p2 & parts2 & H2 & Hparts & ->).
    apply Forall2_cons_inv_l in Hparts as (p3 & parts3 & H3 & Hparts & ->).
    apply Forall2_nil_inv_l in Hparts as ->.
    injection H1 as <-. injection H2 as <-. injection H3 as <-.
    split.
    + eexists. split; [exact Hrun|reflexivity].
    + destruct (Hmerge
                  [MulterFile "2000-part1.pdf" "part1.pdf";
                   MulterFile "2000-part2.pdf" "part2.pdf";
                   MulterFile "2000-part3.pdf" "part3.pdf"]
                  (World {[ "uploads/2000-part1.pdf" := PdfBytes [100; 101; 102; 103];
                            "uploads/2000-part2.pdf" := PdfBytes [104];
                            "uploads/2000-part3.pdf" := PdfBytes [105; 106; 107; 108; 109] ]}
                     sample_clock 4))
        as (w' & Hmerged & Hfile).
      * repeat constructor.
      * apply (bool_decide_unpack _). vm_compute. exact I.
      * exists w'. split; [exact Hmerged|exact Hfile].
Defined.

(** ** Failure in the middle of a request *)

(** C9, as stated, fails: in the request ["2,0,3"] over the sample the
    copy for the second token throws; the answer is a 500, and the first
    part, written before the failure, is still in [downloads]. *)
Lemma failed_split_leaves_a_part :
  pages_at sample_doc (token_group (getPageCount sample_doc) "0") = None
  /\ (split_handler (SplitBody (Some "pages") (Some "2,0,3") None)
        (Some sample_upload) sample_world).1
     = Returns (ServerError (TypeError "node"))
  /\ files (split_handler (SplitBody (Some "pages") (Some "2,0,3") None)
              (Some sample_upload) sample_world).2
       !! "downloads/split-part1-1000.pdf"
     = Some (PdfBytes [101]).
Proof. split; [|split]; reflexivity. Qed.

(** C9, amended.  When the copy of a page fails in the middle of a
    split, the request is aborted and answered 500: no archive is built
    and the answer names no file.  Nothing is undone, though: the parts
    saved before the failing one stay in [downloads], as [save] wrote
    them, and the upload stays in [uploads].  A merge that fails leaves
    [downloads] as it was. *)
Theorem failed_request_keeps_saved_parts {Page : Type} `{!Libraries Page}
    (pdfDoc : list Page)
    (file : multer_file) (body : split_body) (expression range : string)
    (parts : list (list Page)) (w : world Page) :
  files w !! path file = Some (PdfBytes pdfDoc) ->
  splitOption body = Some "pages" ->
  pageRanges body = Some expression ->
  let totalPages := getPageCount pdfDoc in
  let ranges := JS.trim <$> JS.split "," expression in
  Forall2 (fun range pages => pages_at pdfDoc (token_group totalPages range) = Some pages)
    (take (length parts) ranges) parts ->
  ranges !! length parts = Some range ->
  pages_at pdfDoc (token_group totalPages range) = None ->
  let w' := after_parts parts w in
  split_handler body (Some file) w = (Returns (ServerError (TypeError "node")), w')
  /\ (forall (i : nat) pages, parts !! i = Some pages ->
        files w' !! JS.path_join "downloads" (part_name_at (clock w) (ticks w) i)
        = Some (PdfBytes (with_default_page pages)))
  /\ files w' !! path file = Some (PdfBytes pdfDoc)
  /\ (forall now, files w' !! JS.path_join "downloads" (zip_name now)
                  = files w !! JS.path_join "downloads" (zip_name now))
  /\ (forall (req_files : option (list multer_file)) (w1 w1' : world Page) e,
        merge_handler req_files w1 = (Returns (ServerError e), w1') ->
        downloads_unchanged w1 w1').
Proof.
  intros Hfile Hmode Hexpr totalPages ranges Hparts Hrange Hfail w'.
  assert (Hne : expression <> "").
  { intros ->. unfold ranges in Hrange. destruct parts; [|done].
    injection Hrange as <-. unfold pages_at in Hfail. done. }
  split; [|split; [|split; [|split]]].
  - apply (split_handler_throws _ _ pdfDoc); [done|].
    rewrite (split_parts_pages _ _ expression) by done.
    by apply (split_pages_fails _ _ _ range).
  - intros i pages Hi. by apply with_downloads_part_lookup.
  - unfold w', after_parts. simpl. by rewrite with_downloads_upload_lookup.
  - intros now. apply zip_path_not_part.
  - intros req_files w1 w1' e. unfold merge_handler, try_catch.
    destruct req_files as [uploads|]; [|done].
    destruct (Z.of_nat (length uploads) <? 2); [done|].
    unfold bind at 1. simpl. unfold bind at 1.
    destruct (for_of uploads merge_file [] w1) as [[merged| |] w2] eqn:Hloop.
    + done.
    + intros [= _ <-]. by eapply merge_loop_downloads.
    + done.
Qed.

Lemma failed_request_keeps_saved_parts_witness :
  split_handler (SplitBody (Some "pages") (Some "2,0,3") None)
    (Some sample_upload) sample_world
  = (Returns (ServerError (TypeError "node")), after_parts [[101]] sample_world)
  /\ files (after_parts [[101]] sample_world) !! "downloads/split-part1-1000.pdf"
     = Some (PdfBytes [101]).
Proof.
  destruct (failed_request_keeps_saved_parts sample_doc sample_upload
              (SplitBody (Some "pages") (Some "2,0,3") None) "2,0,3" "0"
              [[101]] sample_world)
    as (Hrun & Hpart & _).
  - reflexivity.
  - reflexivity.
  - reflexivity.
  - repeat constructor.
  - reflexivity.
  - reflexivity.
  - split; [exact Hrun|]. exact (Hpart 0%nat [101] eq_refl).
Defined.

(** ** The scenarios of the specification *)

Example split_example :
  JS.trim <$> JS.split "," "1-3, 5, 7-10" = ["1-3"; "5"; "7-10"].
Proof. reflexivity. Qed.

Example split_of_empty_string : JS.split "," "" = [""].
Proof. reflexivity. Qed.

Example parseInt_examples :
  JS.parseInt <$> ["12"; " 7 "; "3abc"; "abc"; ""; "0x1f"; "+4"; "-2"; "007"]
  = [Some 12; Some 7; Some 3; None; None; Some 31; Some 4; Some (-2); Some 7].
Proof. reflexivity. Qed.

Example range_bounds_examples :
  range_bounds <$> ["9-12"; "5-2"; "-3"; "3-"; "1-3-5"; "0-3"]
  = [(Some 8, Some 11); (Some 4, Some 1); (None, Some 2); (Some 2, None);
     (Some 0, Some 2); (Some (-1), Some 2)].
Proof. reflexivity. Qed.

(** ["1-3, 5, 7-10"] over ten pages: three parts of 3, 1 and 4 pages. *)
Example scenario_three_ranges :
  split_handler (SplitBody (Some "pages") (Some "1-3, 5, 7-10") None)
    (Some sample_upload) sample_world
  = (Returns (split_response [[100; 101; 102]; [104]; [106; 107; 108; 109]] sample_world),
     after_split sample_upload [[100; 101; 102]; [104]; [106; 107; 108; 109]] sample_world).
Proof. reflexivity. Qed.

(** ["9-12"] over ten pages: one part with the pages 9 and 10. *)
Example scenario_range_beyond_the_end :
  spec_interval_group 9 12 10 = [8; 9]
  /\ split_handler (SplitBody (Some "pages") (Some "9-12") None)
       (Some sample_upload) sample_world
     = (Returns (split_response [[108; 109]] sample_world),
        after_split sample_upload [[108; 109]] sample_world).
Proof. split; reflexivity. Qed.

(** Four parts over ten pages: 3, 3, 3 and 1 pages. *)
Example scenario_four_parts :
  length <$> size_parts sample_doc 4 = [3; 3; 3; 1]%nat.
Proof. reflexivity. Qed.

(** * More of the page-range engine *)

(** ** What the parser can read *)

Lemma includes_trimStart (c : ascii) (s : string) :
  JS.includes c (JS.trimStart s) = true -> JS.includes c s = true.
Proof.
  induction s as [|d s IH]; simpl; [done|].
  destruct (JS.is_white_space d); simpl.
  - intros H. rewrite IH by done. apply orb_true_r.
  - done.
Qed.

Lemma includes_trimEnd (c : ascii) (s : string) :
  JS.includes c (JS.trimEnd s) = true -> JS.includes c s = true.
Proof.
  induction s as [|d s IH]; simpl; [done|].
  destruct (JS.trimEnd s) as [|e t] eqn:Ht.
  - destruct (JS.is_white_space d); simpl; [done|].
    rewrite orb_false_r. intros ->. done.
  - simpl in *. destruct (Ascii.eqb d c); simpl; [done|]. apply IH.
Qed.

Lemma includes_trim (c : ascii) (s : string) :
  JS.includes c s = false -> JS.includes c (JS.trim s) = false.
Proof.
  intros Hs. unfold JS.trim.
  destruct (JS.includes c (JS.trimEnd (JS.trimStart s))) eqn:H; [|done].
  apply includes_trimEnd, includes_trimStart in H. congruence.
Qed.

(** No field of [s.split(sep)] holds the separator. *)
Lemma split_fields_no_sep (sep : ascii) (s : string) :
  Forall (fun field => JS.includes sep field = false) (JS.split sep s).
Proof.
  induction s as [|c s IH]; simpl.
  - by repeat constructor.
  - destruct (Ascii.eqb c sep) eqn:Hc.
    + by constructor.
    + destruct (JS.split sep s) as [|t ts]; inversion IH; subst.
      * repeat constructor. simpl. by rewrite Hc.
      * constructor; [|done]. simpl. by rewrite Hc.
Qed.

Lemma strip_sign_no_dash (s : string) :
  JS.includes "-" s = false -> (JS.strip_sign s).1 = 1.
Proof.
  destruct s as [|c s]; [done|].
  destruct c as [[] [] [] [] [] [] [] []]; simpl; try done.
Qed.

Lemma strip_hex_prefix_radix (s : string) :
  (JS.strip_hex_prefix s).1 = 10 \/ (JS.strip_hex_prefix s).1 = 16.
Proof.
  destruct s as [|c s]; [by left|].
  destruct c as [[] [] [] [] [] [] [] []]; simpl; try (by left).
  destruct s as [|d s]; [by left|].
  destruct d as [[] [] [] [] [] [] [] []]; simpl; (by left) || (by right).
Qed.

Lemma digit_value_nonneg (radix : Z) (c : ascii) (d : Z) :
  JS.digit_value radix c = Some d -> 0 <= d.
Proof.
  unfold JS.digit_value.
  set (n := Z.of_nat (nat_of_ascii c)).
  destruct (Z.leb_spec 48 n), (Z.leb_spec n 57); simpl;
    try (destruct (_ <? radix); intros [= <-]; lia);
    (destruct (Z.leb_spec 97 n), (Z.leb_spec n 122); simpl;
     try (destruct (_ <? radix); intros [= <-]; lia);
     (destruct (Z.leb_spec 65 n), (Z.leb_spec n 90); simpl;
      try (destruct (_ <? radix); intros [= <-]; lia); done)).
Qed.

Lemma digits_prefix_nonneg (radix : Z) (s : string) :
  Forall (fun d => 0 <= d) (JS.digits_prefix radix s).
Proof.
  induction s as [|c s IH]; simpl; [constructor|].
  destruct (JS.digit_value radix c) as [d|] eqn:Hd; [|constructor].
  constructor; [by eapply digit_value_nonneg|done].
Qed.

Lemma digits_fold_nonneg (radix : Z) (ds : list Z) (acc : Z) :
  0 <= radix -> 0 <= acc -> Forall (fun d => 0 <= d) ds ->
  0 <= foldl (fun acc d => acc * radix + d) acc ds.
Proof.
  intros Hr Hacc Hds. revert acc Hacc.
  induction Hds as [|d ds Hd _ IH]; intros acc Hacc; simpl; [done|].
  apply IH. nia.
Qed.

(** Without a minus sign in the text, [parseInt] gives NaN or a number
    that is not negative. *)
Lemma parseInt_nonneg (s : string) (n : Z) :
  JS.includes "-" s = false -> JS.parseInt s = Some n -> 0 <= n.
Proof.
  intros Hdash. unfold JS.parseInt.
  assert (Hsign : (JS.strip_sign (JS.trimStart s)).1 = 1).
  { apply strip_sign_no_dash.
    destruct (JS.includes "-" (JS.trimStart s)) eqn:H; [|done].
    apply includes_trimStart in H. congruence. }
  destruct (JS.strip_sign (JS.trimStart s)) as [sign s1]. simpl in Hsign. subst sign.
  pose proof (strip_hex_prefix_radix s1) as Hradix.
  destruct (JS.strip_hex_prefix s1) as [radix s2]. simpl in Hradix.
  pose proof (digits_prefix_nonneg radix s2) as Hds.
  destruct (JS.digits_prefix radix s2) as [|d ds]; [done|].
  intros [= <-]. rewrite Z.mul_1_l.
  apply (digits_fold_nonneg radix (d :: ds) 0); [lia|lia|done].
Qed.

(** The bounds of an interval token are NaN or at least -1: the minus
    sign is the separator, so no field can be negative. *)
Lemma range_bounds_at_least_minus_one (range : string) :
  (forall s, (range_bounds range).1 = Some s -> -1 <= s)
  /\ (forall e, (range_bounds range).2 = Some e -> -1 <= e).
Proof.
  unfold range_bounds.
  assert (Hfields : forall (i : nat) x,
            default None (((fun n => JS.minus_one (JS.parseInt (JS.trim n)))
                             <$> JS.split "-" range) !! i) = Some x -> -1 <= x).
  { intros i x. rewrite list_lookup_fmap.
    destruct (JS.split "-" range !! i) as [field|] eqn:Hi; simpl; [|done].
    pose proof (split_fields_no_sep "-" range) as Hno.
    rewrite Forall_lookup in Hno. specialize (Hno i field Hi). simpl in Hno.
    destruct (JS.parseInt (JS.trim field)) as [n|] eqn:Hn; simpl; [|done].
    intros [= <-]. apply parseInt_nonneg in Hn; [lia|]. by apply includes_trim. }
  split; simpl; intros x; apply Hfields.
Qed.

(** ** Which split requests fail *)

Section SplitOutcome.

Context {Page : Type} `{!Libraries Page}.

Implicit Types (pdfDoc : list Page) (w : world Page) (parts : list (list Page))
  (ranges : list string).

Lemma pages_at_negative_head pdfDoc p group :
  p < 0 -> pages_at pdfDoc (p :: group) = None.
Proof.
  intros Hp. unfold pages_at. simpl. by rewrite page_at_negative.
Qed.

(** The copy of a token's pages fails exactly for a token that names
    page 0. *)
Lemma token_fails_iff_page_zero pdfDoc range :
  pages_at pdfDoc (token_group (getPageCount pdfDoc) range) = None
  <-> names_page_zero range = true.
Proof.
  assert (HT : 0 <= getPageCount pdfDoc) by (unfold getPageCount; lia).
  assert (Hsome : forall group,
            Forall (fun p => 0 <= p < getPageCount pdfDoc) group ->
            pages_at pdfDoc group <> None).
  { intros group Hgroup Hnone.
    destruct (pages_at_is_Some pdfDoc group Hgroup) as [pages Hpages]. congruence. }
  unfold token_group, names_page_zero.
  destruct (JS.includes "-" range) eqn:Hdash.
  - pose proof (range_bounds_at_least_minus_one range) as [Hs He].
    destruct (range_bounds range) as [[s|] [e|]]; cbn [fst snd] in Hs, He;
      try (by split).
    specialize (Hs s eq_refl). specialize (He e eq_refl).
    rewrite interval_group_seqZ. destruct (Z.eqb_spec s (-1)) as [->|Hne].
    + split; [done|]. intros _. rewrite seqZ_cons by lia. by apply pages_at_negative_head.
    + split; [|done]. intros Hnone. exfalso. revert Hnone. apply Hsome.
      apply Forall_seqZ. lia.
  - destruct (JS.parseInt range) as [n|] eqn:Hn; simpl; [|done].
    pose proof (parseInt_nonneg range n Hdash Hn) as Hpos.
    destruct (Z.eqb_spec n 0) as [->|Hne].
    + split; [done|]. intros _. simpl.
      destruct (Z.ltb_spec (0 - 1) (getPageCount pdfDoc)); [|lia].
      by apply pages_at_negative_head.
    + split; [|done]. intros Hnone. exfalso. revert Hnone. apply Hsome.
      destruct (Z.ltb_spec (n - 1) (getPageCount pdfDoc)); repeat constructor; lia.
Qed.

(** The tokens up to the first one that names page 0 have pages. *)
Lemma tokens_until_page_zero pdfDoc ranges :
  (existsb names_page_zero ranges = false ->
   exists parts,
     Forall2 (fun range pages =>
                pages_at pdfDoc (token_group (getPageCount pdfDoc) range) = Some pages)
       ranges parts)
  /\ (existsb names_page_zero ranges = true ->
      exists parts range,
        Forall2 (fun range pages =>
                   pages_at pdfDoc (token_group (getPageCount pdfDoc) range) = Some pages)
          (take (length parts) ranges) parts
        /\ ranges !! length parts = Some range
        /\ names_page_zero range = true).
Proof.
  induction ranges as [|range ranges [IHsafe IHzero]]; simpl.
  - split; [|done]. intros _. exists []. constructor.
  - destruct (names_page_zero range) eqn:Hzero; simpl.
    + split; [done|]. intros _. exists [], range. split; [constructor|]. done.
    + assert (exists pages,
                pages_at pdfDoc (token_group (getPageCount pdfDoc) range) = Some pages)
        as [pages Hpages].
      { destruct (pages_at pdfDoc (token_group (getPageCount pdfDoc) range)) as [pages|] eqn:H.
        - by exists pages.
        - apply token_fails_iff_page_zero in H. congruence. }
      split.
      * intros Hsafe. destruct (IHsafe Hsafe) as [parts Hparts].
        exists (pages :: parts). by constructor.
      * intros Hex. destruct (IHzero Hex) as (parts & bad & Hparts & Hbad & Hz).
        exists (pages :: parts), bad. simpl. split; [by constructor|]. done.
Qed.


(** The range mode, by its tokens. *)
Lemma split_pages_cases pdfDoc expression w :
  let ranges := JS.trim <$> JS.split "," expression in
  (existsb names_page_zero ranges = false ->
   exists parts,
     split_pages pdfDoc (getPageCount pdfDoc) expression [] w
     = (Returns ((part_entries (clock w) (ticks w) parts).*1), after_parts parts w))
  /\ (existsb names_page_zero ranges = true ->
      exists parts,
        (length parts < length ranges)%nat
        /\ split_pages pdfDoc (getPageCount pdfDoc) expression [] w
           = (Throws (TypeError "node"), after_parts parts w)).
Proof.
  intros ranges. destruct (tokens_until_page_zero pdfDoc ranges) as [Hsafe Hzero]. split.
  - intros Hnone. destruct (Hsafe Hnone) as [parts Hparts]. exists parts.
    by apply split_pages_run.
  - intros Hex. destruct (Hzero Hex) as (parts & range & Hparts & Hrange & Hz).
    exists parts. split; [by eapply lookup_lt_Some|].
    apply (split_pages_fails _ _ _ range); [done..|].
    by apply token_fails_iff_page_zero.
Qed.

(** The size mode, by its count as a number. *)
Lemma split_size_cases pdfDoc count w :
  (default 0 (JS.to_number <$> JS.parseInt count) <= 2 ^ 53 ->
   exists parts,
     split_size pdfDoc (getPageCount pdfDoc) count [] w
     = (Returns ((part_entries (clock w) (ticks w) parts).*1), after_parts parts w)
     /\ parts = match JS.parseInt count with
                | Some n => size_parts pdfDoc (JS.to_number n)
                | None => []
                end)
  /\ (2 ^ 53 < default 0 (JS.to_number <$> JS.parseInt count) ->
      (split_size pdfDoc (getPageCount pdfDoc) count [] w).1 = OutOfFuel).
Proof.
  destruct (JS.parseInt count) as [n|] eqn:Hn; simpl; split.
  - intros Hmax. eexists. split; [by apply split_size_reached|done].
  - intros Hmax. by eapply split_size_never_ends.
  - intros _. exists []. split; [|done]. unfold split_size. rewrite Hn.
    by rewrite after_parts_nil.
  - intros Hmax. by vm_compute in Hmax.
Qed.

(** What the mode dispatch can come to on a loaded document: the parts
    are made; or a turn throws, with the parts before it made; or the
    size loop does not end. *)
Lemma split_parts_cases body pdfDoc w :
  (exists parts,
     split_parts body pdfDoc (getPageCount pdfDoc) [] w
     = (Returns ((part_entries (clock w) (ticks w) parts).*1), after_parts parts w))
  \/ (exists e parts,
        split_parts body pdfDoc (getPageCount pdfDoc) [] w
        = (Throws e, after_parts parts w))
  \/ (split_parts body pdfDoc (getPageCount pdfDoc) [] w).1 = OutOfFuel.
Proof.
  unfold split_parts.
  destruct (JS.strict_eq (splitOption body) "pages" && JS.truthy (pageRanges body)).
  { destruct (pageRanges body) as [[expression|structured]|];
      try (right; left; exists (TypeError "split"), []; by rewrite after_parts_nil).
    destruct (split_pages_cases pdfDoc expression w) as [Hsafe Hzero].
    destruct (existsb names_page_zero (JS.trim <$> JS.split "," expression)).
    - destruct (Hzero eq_refl) as (parts & _ & Hrun). right. left. by eexists _, parts.
    - destruct (Hsafe eq_refl) as (parts & Hrun). left. by exists parts. }
  destruct (JS.strict_eq (splitOption body) "size" && JS.truthy (numParts body));
    [|left; exists []; by rewrite after_parts_nil].
  destruct (ToString (default (Text "") (numParts body))) as [e|count];
    [right; left; exists e, []; by rewrite after_parts_nil|].
  destruct (split_size_cases pdfDoc count w) as [Hreached Hbeyond].
  destruct (Z.le_gt_cases (default 0 (JS.to_number <$> JS.parseInt count)) (2 ^ 53)).
  - destruct (Hreached ltac:(done)) as (parts & Hrun & _). left. by exists parts.
  - right. right. by apply Hbeyond.
Qed.

End SplitOutcome.

(** A split request on an uploaded PDF ends in one of three ways. *)
Lemma split_handler_cases {Page : Type} `{!Libraries Page} (pdfDoc : list Page)
    (file : multer_file) (body : split_body) (w : world Page) :
  files w !! path file = Some (PdfBytes pdfDoc) ->
  (exists parts,
     split_handler body (Some file) w
     = (Returns (split_response parts w), after_split file parts w))
  \/ (exists e parts,
        split_handler body (Some file) w = (Returns (ServerError e), after_parts parts w))
  \/ (split_handler body (Some file) w).1 = OutOfFuel.
Proof.
  intros Hfile.
  destruct (split_parts_cases body pdfDoc w)
    as [(parts & Hrun) | [(e & parts & Hrun) | Hrun]].
  - left. exists parts. by apply (split_handler_returns _ _ pdfDoc).
  - right. left. exists e, parts. by apply (split_handler_throws _ _ pdfDoc).
  - right. right. unfold split_handler, try_catch.
    erewrite bind_returns; last first.
    { unfold readFile. by rewrite Hfile. }
    erewrite bind_returns; last by reflexivity.
    erewrite bind_returns; last by reflexivity.
    unfold bind.
    destruct (split_parts body pdfDoc (getPageCount pdfDoc) [] w) as [[files| |] w1];
      simpl in Hrun; done.
Qed.




(** A request field that is no text.  A range expression sent as a
    repeated [pageRanges] field arrives as an array, which has no
    [split]: the request ends in a 500 before any part, and nothing is
    written.  A part count sent as a repeated [numParts] field is
    converted to a string by [parseInt]; when it cannot be converted
    (an object without [toString]) the request ends in a 500 too. *)
Theorem split_of_repeated_field {Page : Type} `{!Libraries Page} (pdfDoc : list Page)
    (file : multer_file) (body : split_body) (structured : option string) (w : world Page) :
  files w !! path file = Some (PdfBytes pdfDoc) ->
  (splitOption body = Some "pages" ->
   pageRanges body = Some (Structured structured) ->
   split_handler body (Some file) w = (Returns (ServerError (TypeError "split")), w))
  /\ (splitOption body = Some "size" ->
      numParts body = Some (Structured None) ->
      split_handler body (Some file) w = (Returns (ServerError (TypeError "toString")), w)).
Proof.
  intros Hfile. split.
  - intros Hmode Hranges. apply (split_handler_throws _ _ pdfDoc); [done|].
    unfold split_parts. by rewrite Hmode, Hranges.
  - intros Hmode Hcount. apply (split_handler_throws _ _ pdfDoc); [done|].
    unfold split_parts. by rewrite Hmode, Hcount.
Qed.

Lemma split_of_repeated_field_witness :
  split_handler
    (SplitBody (Some "pages") (Some (Structured (Some "1-3,4-6"))) None)
    (Some sample_upload) sample_world
  = (Returns (ServerError (TypeError "split")), sample_world).
Proof.
  destruct (split_of_repeated_field sample_doc sample_upload
              (SplitBody (Some "pages") (Some (Structured (Some "1-3,4-6"))) None)
              (Some "1-3,4-6") sample_world) as [Hranges _].
  - reflexivity.
  - apply Hranges; reflexivity.
Defined.

(** ** What a successful split leaves on disk *)

Section SplitInventory.

Context {Page : Type} `{!Libraries Page}.

Implicit Types (pdfDoc : list Page) (w : world Page) (parts : list (list Page))
  (entries : list (string * blob Page)).

Lemma part_entries_lookup clk t parts (i : nat) (e : string * blob Page) :
  part_entries clk t parts !! i = Some e ->
  exists pages,
    parts !! i = Some pages
    /\ e = (part_name_at clk t i, PdfBytes (with_default_page pages)).
Proof.
  unfold part_entries. intros H. apply list_lookup_imap_Some in H as (pages & Hp & ->).
  by exists pages.
Qed.

(** The parts of one request have pairwise distinct names. *)
Lemma part_entries_names_NoDup clk t parts :
  NoDup ((part_entries clk t parts).*1).
Proof.
  apply NoDup_alt. intros i j name Hi Hj.
  rewrite list_lookup_fmap in Hi, Hj.
  destruct (part_entries clk t parts !! i) as [ei|] eqn:Hei; [|done].
  destruct (part_entries clk t parts !! j) as [ej|] eqn:Hej; [|done].
  apply part_entries_lookup in Hei as (pi & _ & ->).
  apply part_entries_lookup in Hej as (pj & _ & ->).
  change (Some (part_name_at clk t i) = Some name) in Hi.
  change (Some (part_name_at clk t j) = Some name) in Hj.
  assert (part_name_at clk t i = part_name_at clk t j) as Heq by congruence.
  unfold part_name_at in Heq. apply part_name_inj in Heq; lia.
Qed.

Lemma with_downloads_lookup_other entries (fs : gmap string (blob Page)) (p : string) :
  p ∉ (JS.path_join "downloads" <$> entries.*1) ->
  with_downloads entries fs !! p = fs !! p.
Proof.
  induction entries as [|e entries IH] using rev_ind; [done|].
  rewrite !fmap_app. simpl. intros Hnotin.
  rewrite with_downloads_snoc, lookup_insert_ne.
  - apply IH. intros Hin. apply Hnotin. apply elem_of_app. by left.
  - intros <-. apply Hnotin. apply elem_of_app. right. by apply list_elem_of_singleton.
Qed.

Lemma zip_is_no_part name i now :
  JS.path_join "downloads" (part_name i now) <> JS.path_join "downloads" (zip_name name).
Proof. discriminate. Qed.

End SplitInventory.

(** After a successful split the archive named in the answer exists;
    its entries have pairwise distinct names, each entry is a PDF that is
    also left as a file of that name in [downloads] with the same
    content, the upload is gone, and no other file has changed. *)
Theorem successful_split_inventory {Page : Type} `{!Libraries Page}
    (pdfDoc : list Page) (file : multer_file) (body : split_body) (w w' : world Page)
    (fileName downloadUrl message : string) :
  files w !! path file = Some (PdfBytes pdfDoc) ->
  split_handler body (Some file) w = (Returns (Success fileName downloadUrl message), w') ->
  exists entries,
    files w' !! JS.path_join "downloads" fileName = Some (ZipBytes entries)
    /\ NoDup entries.*1
    /\ Forall (fun e => files w' !! JS.path_join "downloads" e.1 = Some e.2
                        /\ exists pages, e.2 = PdfBytes pages) entries
    /\ files w' !! path file = None
    /\ (forall p,
          p <> path file ->
          p <> JS.path_join "downloads" fileName ->
          p ∉ (JS.path_join "downloads" <$> entries.*1) ->
          files w' !! p = files w !! p).
Proof.
  intros Hfile Hrun.
  destruct (split_handler_cases pdfDoc file body w Hfile)
    as [(parts & Hok) | [(e & parts & Hfail) | Hloop]];
    [|by rewrite Hfail in Hrun|by rewrite Hrun in Hloop].
  rewrite Hok in Hrun. unfold split_response in Hrun. injection Hrun as <- _ _ <-.
  destruct (archive_after_split file parts w) as (entries & Hzip & Hperm).
  exists entries. split; [done|]. split; [|split; [|split]].
  - rewrite Hperm. apply part_entries_names_NoDup.
  - rewrite Hperm. apply Forall_lookup. intros i e Hi.
    apply part_entries_lookup in Hi as (pages & Hpages & ->). simpl.
    split; [by apply after_split_part_lookup|by eexists].
  - unfold after_split. simpl.
    rewrite lookup_insert_ne by apply downloads_not_uploads. apply lookup_delete_eq.
  - intros p Hup Hnozip Hparts. unfold after_split. simpl.
    rewrite lookup_insert_ne by done. rewrite lookup_delete_ne by done.
    apply with_downloads_lookup_other. by rewrite <- Hperm.
Qed.

Lemma successful_split_inventory_witness :
  exists entries,
    files (after_split sample_upload [[100; 101]; [104]] sample_world)
      !! "downloads/split-files-1002.zip" = Some (ZipBytes entries)
    /\ NoDup entries.*1
    /\ files (after_split sample_upload [[100; 101]; [104]] sample_world)
         !! "uploads/999-a.pdf" = None.
Proof.
  destruct (successful_split_inventory sample_doc sample_upload
              (SplitBody (Some "pages") (Some "1-2,5") None)
              sample_world (after_split sample_upload [[100; 101]; [104]] sample_world)
              "split-files-1002.zip" "/downloads/split-files-1002.zip"
              "Split into 2 files")
    as (entries & Hzip & Hnodup & _ & Hgone & _).
  - reflexivity.
  - reflexivity.
  - exists entries. split; [exact Hzip|]. split; [exact Hnodup|exact Hgone].
Defined.

(** ** Requests the split handler turns away *)

(** Without an upload the split handler answers 400 and touches
    nothing.  With an upload that is missing on disk or is not a PDF it
    answers 500, before any mode is looked at, and again touches nothing:
    the upload stays in [uploads] and nothing is written. *)
Theorem split_turns_away_bad_uploads {Page : Type} `{!Libraries Page}
    (body : split_body) (file : multer_file) (w : world Page) :
  split_handler body None w = (Returns (BadRequest "No file uploaded"), w)
  /\ (files w !! path file = None ->
      split_handler body (Some file) w = (Returns (ServerError (ENOENT (path file))), w))
  /\ (forall bytes e,
        files w !! path file = Some bytes ->
        page_error bytes = Some e ->
        split_handler body (Some file) w = (Returns (ServerError e), w)).
Proof.
  split; [done|]. split.
  - intros Hnone. unfold split_handler, try_catch, bind, readFile. by rewrite Hnone.
  - intros bytes e Hbytes Hnopdf. unfold split_handler, try_catch, bind, readFile.
    rewrite Hbytes. by destruct bytes as [pages| | |]; simplify_eq/=.
Qed.

Lemma split_turns_away_bad_uploads_witness :
  split_handler (SplitBody (Some "pages") (Some "1") None)
    (Some (MulterFile "1-notes.txt" "notes.txt"))
    (World {[ "uploads/1-notes.txt" := RawBytes "hello" ]} sample_clock 0)
  = (Returns (ServerError InvalidPDF),
     World {[ "uploads/1-notes.txt" := RawBytes "hello" ]} sample_clock 0
       : world Z).
Proof.
  destruct (split_turns_away_bad_uploads (SplitBody (Some "pages") (Some "1") None)
              (MulterFile "1-notes.txt" "notes.txt")
              (World {[ "uploads/1-notes.txt" := RawBytes "hello" ]} sample_clock 0
                 : world Z))
    as (_ & _ & Hnopdf).
  apply (Hnopdf (RawBytes "hello")); reflexivity.
Defined.

(** ** The count of the size mode is not validated *)





(** ** Interval tokens, as written *)

Lemma split_no_sep (sep : ascii) (s : string) :
  JS.includes sep s = false -> JS.split sep s = [s].
Proof.
  induction s as [|c s IH]; simpl; [done|].
  intros H. apply orb_false_elim in H as [Hc Hs]. rewrite Hc, IH by done. done.
Qed.

Lemma split_first_field (sep : ascii) (a r : string) :
  JS.includes sep a = false ->
  JS.split sep (a +:+ String sep r) = a :: JS.split sep r.
Proof.
  induction a as [|c a IH]; simpl.
  - intros _. by rewrite Ascii.eqb_refl.
  - intros H. apply orb_false_elim in H as [Hc Ha]. rewrite Hc, IH by done. done.
Qed.

(** An interval token is read by its first two dash-separated fields:
    the bounds of [a-b] are [parseInt(a.trim()) - 1] and
    [parseInt(b.trim()) - 1], and whatever follows a second dash is
    ignored, so ["1-3-5"] is served as ["1-3"].  Every token that starts
    with a dash, whatever follows it (["-3"], ["--"], ["-4-7"]), has NaN
    for its start and gives the empty group. *)
Theorem interval_token_reads_two_fields (a b rest : string) (totalPages : Z) :
  JS.includes "-" a = false ->
  JS.includes "-" b = false ->
  range_bounds (a +:+ "-" +:+ b)
  = (JS.minus_one (JS.parseInt (JS.trim a)), JS.minus_one (JS.parseInt (JS.trim b)))
  /\ range_bounds (a +:+ "-" +:+ b +:+ "-" +:+ rest) = range_bounds (a +:+ "-" +:+ b)
  /\ token_group totalPages (a +:+ "-" +:+ b +:+ "-" +:+ rest)
     = token_group totalPages (a +:+ "-" +:+ b)
  /\ (forall s, token_group totalPages ("-" +:+ s) = []).
Proof.
  intros Ha Hb.
  assert (Hdash : forall r, JS.includes "-" (a +:+ String "-" r) = true).
  { intros r. clear. induction a as [|c a IH]; simpl; [done|]. rewrite IH. apply orb_true_r. }
  assert (H2 : range_bounds (a +:+ "-" +:+ b)
               = (JS.minus_one (JS.parseInt (JS.trim a)),
                  JS.minus_one (JS.parseInt (JS.trim b)))).
  { unfold range_bounds. change ("-" +:+ b) with (String "-" b).
    by rewrite split_first_field, split_no_sep. }
  assert (H3 : range_bounds (a +:+ "-" +:+ b +:+ "-" +:+ rest)
               = range_bounds (a +:+ "-" +:+ b)).
  { rewrite H2. unfold range_bounds.
    change ("-" +:+ b +:+ "-" +:+ rest) with (String "-" (b +:+ String "-" rest)).
    by rewrite !split_first_field. }
  split; [done|]. split; [done|]. split.
  - unfold token_group.
    change ("-" +:+ b +:+ "-" +:+ rest) with (String "-" (b +:+ String "-" rest)).
    change ("-" +:+ b) with (String "-" b).
    rewrite !Hdash.
    change (String "-" (b +:+ String "-" rest)) with ("-" +:+ b +:+ "-" +:+ rest).
    change (String "-" b) with ("-" +:+ b). by rewrite H3.
  - intros s. change ("-" +:+ s) with (String "-" s).
    unfold token_group, range_bounds. cbn [JS.includes JS.split].
    rewrite Ascii.eqb_refl. reflexivity.
Qed.

Lemma interval_token_reads_two_fields_witness :
  range_bounds "1-3-5" = range_bounds "1-3"
  /\ token_group 10 "-3" = [] /\ token_group 10 "--" = [] /\ token_group 10 "-4-7" = [].
Proof.
  destruct (interval_token_reads_two_fields "1" "3" "5" 10) as (_ & H3 & _ & Hnil);
    [reflexivity..|].
  split; [exact H3|].
  split; [exact (Hnil "3")|]. split; [exact (Hnil "-")|exact (Hnil "4-7")].
Defined.

(** ** What a merge does to its uploads *)

Section MergeUploads.

Context {Page : Type} `{!Libraries Page}.

Implicit Types (w : world Page) (docs : list (list Page)) (uploads : list multer_file).

Lemma deleted_uploads_lookup uploads (fs : gmap string (blob Page)) (p : string) :
  foldl (fun m file => delete (path file) m) fs uploads !! p
  = if bool_decide (p ∈ path <$> uploads) then None else fs !! p.
Proof.
  revert fs. induction uploads as [|file uploads IH]; intros fs; simpl; [done|].
  rewrite IH. destruct (decide (p = path file)) as [->|Hne].
  - rewrite lookup_delete_eq. rewrite (bool_decide_eq_true_2 (path file ∈ _ :: _)); [|by left].
    by destruct (bool_decide _).
  - rewrite lookup_delete_ne by done.
    destruct (decide (p ∈ path <$> uploads)) as [Hin|Hnotin].
    + rewrite !bool_decide_eq_true_2; [done|by right|done].
    + rewrite !bool_decide_eq_false_2; [done| |done].
      intros Hin. apply elem_of_cons in Hin as [?|?]; done.
Qed.

End MergeUploads.

(** A successful merge consumes its inputs: every upload of the request
    is deleted, and apart from them and the output no file changes. *)
Theorem merge_consumes_its_uploads {Page : Type} `{!Libraries Page}
    (uploads : list multer_file)
    (docs : list (list Page)) (w : world Page) :
  (2 <= length uploads)%nat ->
  Forall2 (fun file doc => files w !! path file = Some (PdfBytes doc)) uploads docs ->
  NoDup (path <$> uploads) ->
  exists w',
    merge_handler (Some uploads) w = (Returns (merge_response uploads w), w')
    /\ Forall (fun file => files w' !! path file = None) uploads
    /\ (forall p,
          p ∉ (path <$> uploads) ->
          p <> JS.path_join "downloads" (merged_name (clock w (ticks w))) ->
          files w' !! p = files w !! p).
Proof.
  intros Hlen Hdocs Hnodup. exists (after_merge uploads (concat docs) w).
  split; [by apply merge_handler_run|]. unfold after_merge. simpl. split.
  - apply Forall_forall. intros file Hfile.
    rewrite lookup_insert_ne by apply downloads_not_uploads.
    rewrite deleted_uploads_lookup. rewrite bool_decide_eq_true_2; [done|].
    by apply list_elem_of_fmap_2.
  - intros p Hp Hout. rewrite lookup_insert_ne by done.
    rewrite deleted_uploads_lookup. by rewrite bool_decide_eq_false_2.
Qed.

Lemma merge_consumes_its_uploads_witness :
  exists w',
    merge_handler
      (Some [MulterFile "1-a.pdf" "a.pdf"; MulterFile "2-b.pdf" "b.pdf"])
      (World {[ "uploads/1-a.pdf" := PdfBytes [10; 11; 12];
                "uploads/2-b.pdf" := PdfBytes [20; 21] ]}
         sample_clock 0)
    = (Returns (Success "merged-1000.pdf" "/downloads/merged-1000.pdf"
                  "Merged 2 PDFs successfully"), w')
    /\ files w' !! "uploads/1-a.pdf" = None
    /\ files w' !! "uploads/2-b.pdf" = None.
Proof.
  destruct (merge_consumes_its_uploads
              [MulterFile "1-a.pdf" "a.pdf"; MulterFile "2-b.pdf" "b.pdf"]
              [[10; 11; 12]; [20; 21]]
              (World {[ "uploads/1-a.pdf" := PdfBytes [10; 11; 12];
                        "uploads/2-b.pdf" := PdfBytes [20; 21] ]}
                 sample_clock 0))
    as (w' & Hrun & Hgone & _).
  - simpl. lia.
  - repeat constructor.
  - apply (bool_decide_unpack _). vm_compute. exact I.
  - exists w'. split; [exact Hrun|].
    apply Forall_cons in Hgone as [H1 Hgone]. apply Forall_cons in Hgone as [H2 _].
    split; [exact H1|exact H2].
Defined.

(** A merge that meets an upload that is not a PDF answers 500 with the
    exception of that upload ([page_error]: bytes that pdf-lib does not
    load, or a bare header whose pages cannot be read) and writes no
    output, yet the uploads before it are already deleted: they are lost
    although nothing was produced.  The unreadable upload and those
    after it stay, and [downloads] is as it was. *)
Theorem merge_stops_at_bad_upload {Page : Type} `{!Libraries Page}
    (good : list multer_file) (bad : multer_file) (rest : list multer_file)
    (docs : list (list Page)) (bytes : blob Page) (e : error) (w : world Page) :
  (2 <= length (good ++ bad :: rest))%nat ->
  Forall2 (fun file doc => files w !! path file = Some (PdfBytes doc)) good docs ->
  files w !! path bad = Some bytes ->
  page_error bytes = Some e ->
  NoDup (path <$> (good ++ bad :: rest)) ->
  exists w',
    merge_handler (Some (good ++ bad :: rest)) w = (Returns (ServerError e), w')
    /\ Forall (fun file => files w' !! path file = None) good
    /\ Forall (fun file => files w' !! path file = files w !! path file) (bad :: rest)
    /\ downloads_unchanged w w'.
Proof.
  intros Hlen Hdocs Hbad Hnopdf Hnodup.
  rewrite fmap_app in Hnodup. apply NoDup_app in Hnodup as (Hgood & Hdisjoint & _).
  exists (World (foldl (fun m file => delete (path file) m) (files w) good) (clock w) (ticks w)).
  split; [|split; [|split]].
  - unfold merge_handler, try_catch.
    destruct (Z.ltb_spec (Z.of_nat (length (good ++ bad :: rest))) 2); [lia|].
    erewrite bind_returns; last by reflexivity.
    erewrite bind_throws; [done|].
    rewrite for_of_app. erewrite bind_returns; last by apply merge_loop_run.
    simpl. erewrite bind_throws; [done|].
    unfold merge_file. erewrite bind_returns; last first.
    { unfold readFile. simpl. rewrite deleted_uploads_lookup.
      rewrite bool_decide_eq_false_2; [by rewrite Hbad|].
      intros Hin. apply (Hdisjoint _ Hin). rewrite fmap_cons. by left. }
    destruct bytes as [pages| |entries|raw]; simpl in Hnopdf; simplify_eq.
    + erewrite bind_returns; last by reflexivity. by erewrite bind_throws.
    + by erewrite bind_throws.
    + by erewrite bind_throws.
  - simpl. apply Forall_forall. intros file Hfile. rewrite deleted_uploads_lookup.
    rewrite bool_decide_eq_true_2; [done|]. by apply list_elem_of_fmap_2.
  - simpl. apply Forall_forall. intros file Hfile. rewrite deleted_uploads_lookup.
    rewrite bool_decide_eq_false_2; [done|].
    intros Hin. apply (Hdisjoint _ Hin). by apply list_elem_of_fmap_2.
  - intros name. simpl. rewrite deleted_uploads_lookup.
    rewrite bool_decide_eq_false_2; [done|].
    intros Hin. apply list_elem_of_fmap in Hin as (file & Heq & _).
    by apply downloads_not_uploads in Heq.
Qed.

Lemma merge_stops_at_bad_upload_witness :
  exists w',
    merge_handler
      (Some [MulterFile "1-a.pdf" "a.pdf"; MulterFile "2-b.txt" "b.txt"])
      (World {[ "uploads/1-a.pdf" := PdfBytes [10; 11; 12];
                "uploads/2-b.txt" := RawBytes "not a pdf" ]}
         sample_clock 0)
    = (Returns (ServerError InvalidPDF), w')
    /\ files w' !! "uploads/1-a.pdf" = None.
Proof.
  destruct (merge_stops_at_bad_upload
              [MulterFile "1-a.pdf" "a.pdf"] (MulterFile "2-b.txt" "b.txt") []
              [[10; 11; 12]] (RawBytes "not a pdf") InvalidPDF
              (World {[ "uploads/1-a.pdf" := PdfBytes [10; 11; 12];
                        "uploads/2-b.txt" := RawBytes "not a pdf" ]}
                 sample_clock 0))
    as (w' & Hrun & Hgone & _).
  - simpl. lia.
  - repeat constructor.
  - reflexivity.
  - reflexivity.
  - apply (bool_decide_unpack _). vm_compute. exact I.
  - exists w'. split; [exact Hrun|].
    apply Forall_cons in Hgone as [H1 _]. exact H1.
Defined.

(** A merge fails on an upload whose file is not there when its turn
    comes: one that is missing from the start, or one stored under the
    path of an upload before it, which that turn has deleted (multer
    names an upload by the millisecond and its original name, so two
    files of one name can share a path).  The answer is a 500, no
    output is written, and the uploads before it are deleted. *)
Theorem merge_stops_at_missing_upload {Page : Type} `{!Libraries Page}
    (good : list multer_file) (bad : multer_file) (rest : list multer_file)
    (docs : list (list Page)) (w : world Page) :
  (2 <= length (good ++ bad :: rest))%nat ->
  Forall2 (fun file doc => files w !! path file = Some (PdfBytes doc)) good docs ->
  NoDup (path <$> good) ->
  files w !! path bad = None \/ path bad ∈ path <$> good ->
  exists w',
    merge_handler (Some (good ++ bad :: rest)) w
    = (Returns (ServerError (ENOENT (path bad))), w')
    /\ Forall (fun file => files w' !! path file = None) good
    /\ (forall p, p ∉ path <$> good -> files w' !! p = files w !! p).
Proof.
  intros Hlen Hdocs Hgood Hbad.
  exists (World (foldl (fun m file => delete (path file) m) (files w) good) (clock w) (ticks w)).
  split; [|split].
  - unfold merge_handler, try_catch.
    destruct (Z.ltb_spec (Z.of_nat (length (good ++ bad :: rest))) 2); [lia|].
    erewrite bind_returns; last by reflexivity.
    erewrite bind_throws; [done|].
    rewrite for_of_app. erewrite bind_returns; last by apply merge_loop_run.
    simpl. erewrite bind_throws; [done|].
    unfold merge_file. erewrite bind_throws; [done|].
    unfold readFile. simpl. rewrite deleted_uploads_lookup.
    destruct (decide (path bad ∈ path <$> good)) as [Hin|Hnotin].
    + by rewrite bool_decide_eq_true_2.
    + rewrite bool_decide_eq_false_2 by done. by destruct Hbad as [->|?].
  - simpl. apply Forall_forall. intros file Hfile. rewrite deleted_uploads_lookup.
    rewrite bool_decide_eq_true_2; [done|]. by apply list_elem_of_fmap_2.
  - intros p Hp. simpl. rewrite deleted_uploads_lookup. by rewrite bool_decide_eq_false_2.
Qed.

Lemma merge_stops_at_missing_upload_witness :
  exists w',
    merge_handler
      (Some [MulterFile "1-a.pdf" "a.pdf"; MulterFile "1-a.pdf" "a.pdf"])
      (World {[ "uploads/1-a.pdf" := PdfBytes [10; 11; 12] ]} sample_clock 0)
    = (Returns (ServerError (ENOENT "uploads/1-a.pdf")), w')
    /\ files w' !! "uploads/1-a.pdf" = None.
Proof.
  destruct (merge_stops_at_missing_upload
              [MulterFile "1-a.pdf" "a.pdf"] (MulterFile "1-a.pdf" "a.pdf") []
              [[10; 11; 12]]
              (World {[ "uploads/1-a.pdf" := PdfBytes [10; 11; 12] ]} sample_clock 0))
    as (w' & Hrun & Hgone & _).
  - simpl. lia.
  - repeat constructor.
  - apply (bool_decide_unpack _). vm_compute. exact I.
  - right. apply (bool_decide_unpack _). vm_compute. exact I.
  - exists w'. split; [exact Hrun|].
    apply Forall_cons in Hgone as [H1 _]. exact H1.
Defined.

(** * The sweep of old files *)

Section SweepFacts.

Import QArith Lqa.
Local Open Scope Z_scope.

Implicit Types (d : Sweep.disk) (l : list string) (e : Sweep.entry).

(** The order in which a directory is listed. *)
Variable listing : list string -> list string.

Lemma is_old_spec (now : Z) (m : Q) :
  Sweep.is_old now m = true <-> (inject_Z Sweep.maxAge < inject_Z now - m)%Q.
Proof.
  unfold Sweep.is_old. rewrite negb_true_iff, <- not_true_iff_false, Qle_bool_iff.
  split; intros; lra.
Qed.

Lemma is_old_later (now now' : Z) (m : Q) :
  now <= now' -> Sweep.is_old now m = true -> Sweep.is_old now' m = true.
Proof.
  rewrite !is_old_spec. intros Hle Hold. rewrite Zle_Qle in Hle. lra.
Qed.

(** One turn of the loop, by what the directory holds under the name. *)
Lemma sweep_file_cases dir f d :
  Sweep.sweep_file dir f d
  = match Sweep.entry_of dir f d with
    | None => (Throws (ENOENT (JS.path_join dir f)), d)
    | Some e =>
        let d1 := Sweep.Disk (Sweep.tree d) (Sweep.clock d) (S (Sweep.ticks d)) in
        if Sweep.is_old (Sweep.clock d (Sweep.ticks d)) (Sweep.mtimeMs e) then
          match e with
          | Sweep.File _ =>
              (Returns tt,
               Sweep.Disk (alter (delete f) dir (Sweep.tree d)) (Sweep.clock d)
                 (S (Sweep.ticks d)))
          | Sweep.Directory _ => (Throws (EISDIR (JS.path_join dir f)), d1)
          end
        else (Returns tt, d1)
    end.
Proof.
  unfold Sweep.sweep_file, Sweep.stat, Sweep.unlink, Sweep.entry_of. simpl.
  destruct (Sweep.tree d !! dir ≫= _) as [[m|m]|]; simpl; [| |done].
  - by destruct (Sweep.is_old _ m).
  - by destruct (Sweep.is_old _ m).
Qed.

Lemma entry_of_ticks dir f t c n n' :
  Sweep.entry_of dir f (Sweep.Disk t c n') = Sweep.entry_of dir f (Sweep.Disk t c n).
Proof. reflexivity. Qed.

Lemma entry_of_unlinked dir f t c n dir' g :
  Sweep.entry_of dir' g (Sweep.Disk (alter (delete f) dir t) c n)
  = if decide (dir' = dir /\ g = f) then None else Sweep.entry_of dir' g (Sweep.Disk t c n).
Proof.
  unfold Sweep.entry_of. simpl. rewrite lookup_alter.
  destruct (decide (dir = dir')) as [<-|Hne].
  - destruct (t !! dir) as [es|]; simpl.
    + rewrite lookup_delete. destruct (decide (f = g)) as [<-|Hfg].
      * by rewrite decide_True.
      * rewrite decide_False; [done|]. intros [_ ->]. done.
    + by destruct (decide _).
  - rewrite decide_False; [done|]. intros [-> _]. done.
Qed.

(** What the loop over any list of names does to an entry of the disk,
    whether the loop ends or a turn throws: the clock is read at most
    once per name, no directory but [dir] changes, and an entry of
    [dir] either stays as it is or is a file that was older than an
    hour at one of the readings, and is gone. *)
Lemma sweep_files_effect dir l d :
  let d' := (Sweep.sweep_files dir l d).2 in
  Sweep.clock d' = Sweep.clock d
  /\ (Sweep.ticks d <= Sweep.ticks d')%nat
  /\ (forall dir', dir' <> dir -> Sweep.tree d' !! dir' = Sweep.tree d !! dir')
  /\ (forall g,
        Sweep.entry_of dir g d' = Sweep.entry_of dir g d
        \/ (Sweep.entry_of dir g d' = None
            /\ exists m (k : nat),
                 Sweep.entry_of dir g d = Some (Sweep.File m)
                 /\ (Sweep.ticks d <= k < Sweep.ticks d')%nat
                 /\ Sweep.is_old (Sweep.clock d k) m = true)).
Proof.
  revert d. induction l as [|f l IH]; intros d; cbv zeta.
  - simpl. split; [done|]. split; [done|]. split; [done|]. by left.
  - simpl. rewrite sweep_file_cases.
    destruct (Sweep.entry_of dir f d) as [e|] eqn:Hf.
    2:{ simpl. split; [done|]. split; [done|]. split; [done|]. by left. }
    cbv zeta. destruct (Sweep.is_old (Sweep.clock d (Sweep.ticks d)) (Sweep.mtimeMs e)) eqn:Hold.
    + destruct e as [m|m].
      * match goal with |- context [Sweep.sweep_files dir l ?x] => set (d1 := x) end.
        destruct (IH d1) as (Hc & Ht & Hoth & Hdir). simpl in Hc, Ht.
        split; [done|]. split; [lia|]. split.
        -- intros dir' Hne. rewrite Hoth by done. unfold d1. simpl.
           by rewrite lookup_alter_ne.
        -- intros g. destruct (decide (g = f)) as [->|Hne].
           ++ right. split.
              ** destruct (Hdir f) as [->|[-> _]]; [|done].
                 unfold d1. rewrite entry_of_unlinked. by rewrite decide_True.
              ** exists m, (Sweep.ticks d). split; [done|]. split; [lia|done].
           ++ assert (Sweep.entry_of dir g d1 = Sweep.entry_of dir g d) as Hsame.
              { unfold d1. rewrite entry_of_unlinked. rewrite decide_False; [by destruct d|].
                intros [_ ?]. done. }
              destruct (Hdir g) as [->|(-> & m' & k & Hm' & Hk & Hold')]; [by left|].
              right. split; [done|]. exists m', k. rewrite <- Hsame.
              split; [done|]. split; [simpl in Hk; lia|done].
      * simpl. split; [done|]. split; [lia|]. split; [done|]. by left.
    + match goal with |- context [Sweep.sweep_files dir l ?x] => set (d1 := x) end.
      destruct (IH d1) as (Hc & Ht & Hoth & Hdir). simpl in Hc, Ht.
      split; [done|]. split; [lia|]. split.
      * intros dir' Hne. by rewrite Hoth.
      * intros g. destruct (Hdir g) as [->|(-> & m' & k & Hm' & Hk & Hold')]; [by left|].
        right. split; [done|]. exists m', k.
        split; [done|]. split; [simpl in Hk; lia|done].
Qed.

(** The same for the sweep of one directory, in any listing order. *)
Lemma sweep_dir_effect dir d :
  let d' := Sweep.sweep_dir listing dir d in
  Sweep.clock d' = Sweep.clock d
  /\ (Sweep.ticks d <= Sweep.ticks d')%nat
  /\ (forall dir', dir' <> dir -> Sweep.tree d' !! dir' = Sweep.tree d !! dir')
  /\ (forall g,
        Sweep.entry_of dir g d' = Sweep.entry_of dir g d
        \/ (Sweep.entry_of dir g d' = None
            /\ exists m (k : nat),
                 Sweep.entry_of dir g d = Some (Sweep.File m)
                 /\ (Sweep.ticks d <= k < Sweep.ticks d')%nat
                 /\ Sweep.is_old (Sweep.clock d k) m = true)).
Proof.
  unfold Sweep.sweep_dir. destruct (Sweep.readdir listing dir d) as [l|e|].
  - apply sweep_files_effect.
  - cbv zeta. split; [done|]. split; [done|]. split; [done|]. by left.
  - cbv zeta. split; [done|]. split; [done|]. split; [done|]. by left.
Qed.

(** The loop ends, and removes what is old, when it walks over names
    that are all different and all there, and no directory among them
    is older than an hour at the reading [K], which is not before the
    last reading of the loop. *)
Lemma sweep_files_complete dir l d (K : nat) :
  (forall i j : nat, (i <= j)%nat -> Sweep.clock d i <= Sweep.clock d j) ->
  NoDup l ->
  (forall f, f ∈ l -> is_Some (Sweep.entry_of dir f d)) ->
  (forall f m, f ∈ l -> Sweep.entry_of dir f d = Some (Sweep.Directory m) ->
     Sweep.is_old (Sweep.clock d K) m = false) ->
  (Sweep.ticks (Sweep.sweep_files dir l d).2 <= K)%nat ->
  forall f m,
    f ∈ l -> Sweep.entry_of dir f d = Some (Sweep.File m) ->
    Sweep.is_old (Sweep.clock d (Sweep.ticks d)) m = true ->
    Sweep.entry_of dir f (Sweep.sweep_files dir l d).2 = None.
Proof.
  intros Hclock. revert d Hclock.
  induction l as [|f l IH]; intros d Hclock Hnodup Hin Hdirs HK g m Hg Hm Hold.
  { by apply elem_of_nil in Hg. }
  apply NoDup_cons in Hnodup as [Hf Hnodup].
  destruct (Hin f ltac:(by left)) as [e He].
  simpl in *. rewrite sweep_file_cases, He in *. cbv zeta in *.
  assert (Hrest : forall d1,
            Sweep.clock d1 = Sweep.clock d ->
            Sweep.ticks d1 = S (Sweep.ticks d) ->
            (forall h, h <> f -> Sweep.entry_of dir h d1 = Sweep.entry_of dir h d) ->
            (Sweep.ticks (Sweep.sweep_files dir l d1).2 <= K)%nat ->
            g <> f ->
            Sweep.entry_of dir g (Sweep.sweep_files dir l d1).2 = None).
  { intros d1 Hc Ht Hsame HK1 Hne.
    assert (g ∈ l) as Hgl by (apply elem_of_cons in Hg as [?|?]; done).
    assert (Hl : forall h, h ∈ l -> h <> f) by (intros h Hh ->; done).
    apply (IH d1) with (m := m).
    - rewrite Hc. exact Hclock.
    - done.
    - intros h Hh. rewrite Hsame by by apply Hl. apply Hin. by right.
    - intros h mh Hh Hent. rewrite Hsame in Hent by by apply Hl. rewrite Hc.
      apply (Hdirs h); [by right|done].
    - done.
    - done.
    - by rewrite Hsame.
    - rewrite Hc, Ht. apply (is_old_later (Sweep.clock d (Sweep.ticks d))); [|done].
      apply Hclock. lia. }
  destruct (Sweep.is_old (Sweep.clock d (Sweep.ticks d)) (Sweep.mtimeMs e)) eqn:Holde.
  - destruct e as [me|me].
    + match goal with |- context [Sweep.sweep_files dir l ?x] => set (d1 := x) in * end.
      destruct (decide (g = f)) as [->|Hne].
      * destruct (sweep_files_effect dir l d1) as (_ & _ & _ & Hdir).
        destruct (Hdir f) as [->|[-> _]]; [|done].
        unfold d1. rewrite entry_of_unlinked. by rewrite decide_True.
      * apply Hrest; [done|done| |done|done].
        intros h Hh. unfold d1. rewrite entry_of_unlinked.
        rewrite decide_False; [by destruct d|]. intros [_ ?]. done.
    + simpl in HK, Holde. pose proof (Hdirs f me ltac:(by left) He) as Hyoung.
      rewrite (is_old_later (Sweep.clock d (Sweep.ticks d))) in Hyoung; [done| |done].
      apply Hclock. lia.
  - destruct (decide (g = f)) as [->|Hne].
    { rewrite He in Hm. injection Hm as ->. simpl in Holde. congruence. }
    apply Hrest; [done|done|done|done|done].
Qed.

Lemma sweep_dir_files dir d es :
  Sweep.tree d !! dir = Some es ->
  Sweep.sweep_dir listing dir d
  = (Sweep.sweep_files dir (listing (map_to_list es).*1) d).2.
Proof. intros H. unfold Sweep.sweep_dir, Sweep.readdir. by rewrite H. Qed.

Lemma cleanup_two_sweeps d :
  Sweep.cleanupOldFiles listing d
  = Sweep.sweep_dir listing "downloads" (Sweep.sweep_dir listing "uploads" d).
Proof. reflexivity. Qed.

Lemma entry_of_tree dir d d' :
  Sweep.tree d' !! dir = Sweep.tree d !! dir ->
  forall g, Sweep.entry_of dir g d' = Sweep.entry_of dir g d.
Proof. intros H g. unfold Sweep.entry_of. by rewrite H. Qed.

(** What the whole sweep does to an entry of the disk. *)
Lemma cleanup_effect d :
  let d' := Sweep.cleanupOldFiles listing d in
  Sweep.clock d' = Sweep.clock d
  /\ (Sweep.ticks d <= Sweep.ticks d')%nat
  /\ (forall dir, dir <> "uploads" -> dir <> "downloads" ->
        Sweep.tree d' !! dir = Sweep.tree d !! dir)
  /\ (forall dir g,
        Sweep.entry_of dir g d' = Sweep.entry_of dir g d
        \/ (Sweep.entry_of dir g d' = None
            /\ exists m (k : nat),
                 Sweep.entry_of dir g d = Some (Sweep.File m)
                 /\ (Sweep.ticks d <= k < Sweep.ticks d')%nat
                 /\ Sweep.is_old (Sweep.clock d k) m = true)).
Proof.
  cbv zeta. rewrite cleanup_two_sweeps.
  destruct (sweep_dir_effect "uploads" d) as (Hc1 & Ht1 & Hoth1 & Hdir1).
  set (d1 := Sweep.sweep_dir listing "uploads" d) in *.
  destruct (sweep_dir_effect "downloads" d1) as (Hc2 & Ht2 & Hoth2 & Hdir2).
  set (d2 := Sweep.sweep_dir listing "downloads" d1) in *.
  split; [congruence|]. split; [lia|]. split.
  - intros dir Hne1 Hne2. by rewrite Hoth2, Hoth1.
  - intros dir g. destruct (decide (dir = "downloads")) as [->|Hne2].
    + rewrite <- (entry_of_tree "downloads" d d1) by by apply Hoth1.
      destruct (Hdir2 g) as [->|(-> & m & k & Hm & Hk & Hold)]; [by left|].
      right. split; [done|]. exists m, k. split; [done|]. split; [lia|by rewrite <- Hc1].
    + rewrite (entry_of_tree dir d1 d2) by by apply Hoth2.
      destruct (decide (dir = "uploads")) as [->|Hne1].
      * destruct (Hdir1 g) as [->|(-> & m & k & Hm & Hk & Hold)]; [by left|].
        right. split; [done|]. exists m, k. split; [done|]. split; [lia|done].
      * left. apply entry_of_tree. by apply Hoth1.
Qed.

(** The loop stops at the first turn that throws: at a name that is not
    there, or at a directory that is older than an hour.  The names
    that the listing puts after it are not looked at. *)
Lemma sweep_files_stop dir l stop l' d :
  (forall i j : nat, (i <= j)%nat -> Sweep.clock d i <= Sweep.clock d j) ->
  Sweep.entry_of dir stop d = None
  \/ (exists m, Sweep.entry_of dir stop d = Some (Sweep.Directory m)
               /\ Sweep.is_old (Sweep.clock d (Sweep.ticks d)) m = true) ->
  forall f, f ∉ l ->
    Sweep.entry_of dir f (Sweep.sweep_files dir (l ++ stop :: l') d).2
    = Sweep.entry_of dir f d.
Proof.
  intros Hclock. revert d Hclock.
  induction l as [|f0 l IH]; intros d Hclock Hstop f Hf; simpl; rewrite sweep_file_cases.
  - destruct Hstop as [->|(m & -> & Hold)]; [done|]. cbv zeta. simpl. by rewrite Hold.
  - apply not_elem_of_cons in Hf as [Hne Hf].
    destruct (Sweep.entry_of dir f0 d) as [e|] eqn:He; [|done]. cbv zeta.
    assert (Hrest : forall d1,
              Sweep.clock d1 = Sweep.clock d ->
              Sweep.ticks d1 = S (Sweep.ticks d) ->
              (forall h, h <> f0 -> Sweep.entry_of dir h d1 = Sweep.entry_of dir h d) ->
              stop <> f0 ->
              Sweep.entry_of dir f (Sweep.sweep_files dir (l ++ stop :: l') d1).2
              = Sweep.entry_of dir f d).
    { intros d1 Hc Ht Hsame Hs. rewrite IH; [by apply Hsame| | |done].
      - rewrite Hc. exact Hclock.
      - rewrite Hsame, Hc, Ht by done.
        destruct Hstop as [?|(m & ? & Hold)]; [by left|right].
        exists m. split; [done|].
        apply (is_old_later (Sweep.clock d (Sweep.ticks d))); [|done]. apply Hclock. lia. }
    destruct (Sweep.is_old (Sweep.clock d (Sweep.ticks d)) (Sweep.mtimeMs e)) eqn:Holde.
    + destruct e as [me|me]; [|done].
      apply Hrest; [done|done| |].
      * intros h Hh. rewrite entry_of_unlinked.
        rewrite decide_False; [by destruct d|]. intros [_ ?]. done.
      * intros ->. rewrite He in Hstop. by destruct Hstop as [?|(m & ? & _)].
    + apply Hrest; [done|done|done|].
      intros ->. rewrite He in Hstop. destruct Hstop as [?|(m & Hm & Hold)]; [done|].
      injection Hm as ->. simpl in Holde. congruence.
Qed.

End SweepFacts.

Section SweepTheorems.

Import QArith Lqa.
Local Open Scope Z_scope.

(** The sweep is safe, in whatever order the directories are listed and
    wherever it stops.  Under a clock that does not run backwards,
    [cleanupOldFiles] creates no file and changes no modification time;
    it keeps every file that is not older than an hour when the sweep
    ends; it leaves every directory other than uploads and downloads as
    it was; and it removes no subdirectory. *)
Theorem cleanup_keeps_young_files (listing : list string -> list string) (d : Sweep.disk) :
  (forall i j : nat, (i <= j)%nat -> Sweep.clock d i <= Sweep.clock d j) ->
  let d' := Sweep.cleanupOldFiles listing d in
  (forall dir file m,
     Sweep.mtime_of dir file d' = Some m -> Sweep.mtime_of dir file d = Some m)
  /\ (forall dir file m,
        Sweep.mtime_of dir file d = Some m ->
        (inject_Z (Sweep.clock d (Sweep.ticks d')) - m <= inject_Z Sweep.maxAge)%Q ->
        Sweep.mtime_of dir file d' = Some m)
  /\ (forall dir file,
        dir <> "uploads" -> dir <> "downloads" ->
        Sweep.mtime_of dir file d' = Sweep.mtime_of dir file d)
  /\ (forall dir file m,
        Sweep.entry_of dir file d = Some (Sweep.Directory m) ->
        Sweep.entry_of dir file d' = Some (Sweep.Directory m)).
Proof.
  intros Hclock d'. destruct (cleanup_effect listing d) as (Hc & Ht & Hoth & Hdir).
  fold d' in Hc, Ht, Hoth, Hdir. unfold Sweep.mtime_of.
  split; [|split; [|split]].
  - intros dir file m Hm. destruct (Hdir dir file) as [<-|[Hnone _]]; [done|].
    by rewrite Hnone in Hm.
  - intros dir file m Hm Hage.
    destruct (Hdir dir file) as [->|(_ & m' & k & Hfile & Hk & Hold)]; [done|].
    rewrite Hfile in Hm. injection Hm as <-.
    apply (is_old_later _ (Sweep.clock d (Sweep.ticks d'))) in Hold; [|apply Hclock; lia].
    apply is_old_spec in Hold. lra.
  - intros dir file Hne1 Hne2. f_equal. apply entry_of_tree. by apply Hoth.
  - intros dir file m Hm.
    destruct (Hdir dir file) as [->|(_ & m' & k & Hfile & _)]; [done|congruence].
Qed.

Lemma cleanup_keeps_young_files_witness :
  Sweep.mtime_of "uploads" "2-b.pdf" (Sweep.cleanupOldFiles reverse sample_disk)
  = Some (inject_Z 4000000).
Proof.
  destruct (cleanup_keeps_young_files reverse sample_disk) as (_ & Hkeep & _).
  - intros i j Hij. unfold sample_disk, late_clock. simpl. lia.
  - apply Hkeep; [reflexivity|]. vm_compute. discriminate.
Defined.

(** The sweep is complete when nothing stops it.  Let the sweep run
    alone, let the listing of a directory name each of its entries
    once, in any order, let the clock not run backwards, and let no
    subdirectory of the directory be older than an hour when the sweep
    ends.  Then every file of uploads or downloads that is older than an
    hour when [cleanupOldFiles] starts is gone when it ends. *)
Theorem cleanup_removes_old_files (listing : list string -> list string) (d : Sweep.disk)
    (dir file : string) (m : Q) :
  (forall names, listing names ≡ₚ names) ->
  (forall i j : nat, (i <= j)%nat -> Sweep.clock d i <= Sweep.clock d j) ->
  dir = "uploads" \/ dir = "downloads" ->
  Sweep.entry_of dir file d = Some (Sweep.File m) ->
  (inject_Z Sweep.maxAge < inject_Z (Sweep.clock d (Sweep.ticks d)) - m)%Q ->
  (forall sub m',
     Sweep.entry_of dir sub d = Some (Sweep.Directory m') ->
     (inject_Z (Sweep.clock d (Sweep.ticks (Sweep.cleanupOldFiles listing d))) - m'
      <= inject_Z Sweep.maxAge)%Q) ->
  Sweep.mtime_of dir file (Sweep.cleanupOldFiles listing d) = None.
Proof.
  intros Hperm Hclock Hdir Hm Hage Hsubs.
  apply is_old_spec in Hage.
  assert (Hyoung : forall sub m',
            Sweep.entry_of dir sub d = Some (Sweep.Directory m') ->
            Sweep.is_old (Sweep.clock d (Sweep.ticks (Sweep.cleanupOldFiles listing d))) m'
            = false).
  { intros sub m' Hsub. apply not_true_iff_false. intros Hold.
    apply is_old_spec in Hold. specialize (Hsubs sub m' Hsub). lra. }
  clear Hsubs. unfold Sweep.mtime_of.
  rewrite cleanup_two_sweeps in *.
  destruct (sweep_dir_effect listing "uploads" d) as (Hc1 & Ht1 & Hoth1 & _).
  set (d1 := Sweep.sweep_dir listing "uploads" d) in *.
  destruct (sweep_dir_effect listing "downloads" d1) as (Hc2 & Ht2 & Hoth2 & _).
  set (d2 := Sweep.sweep_dir listing "downloads" d1) in *.
  assert (Hwalk : forall d0 es,
            Sweep.clock d0 = Sweep.clock d ->
            (Sweep.ticks d <= Sweep.ticks d0)%nat ->
            Sweep.tree d0 !! dir = Some es ->
            Sweep.tree d0 !! dir = Sweep.tree d !! dir ->
            (Sweep.ticks (Sweep.sweep_dir listing dir d0) <= Sweep.ticks d2)%nat ->
            Sweep.entry_of dir file (Sweep.sweep_dir listing dir d0) = None).
  { intros d0 es Hc Ht Hes Hsame HK.
    rewrite (sweep_dir_files listing dir d0 es Hes) in *.
    apply (sweep_files_complete dir _ d0 (Sweep.ticks d2)) with (m := m).
    - rewrite Hc. exact Hclock.
    - rewrite Hperm. apply NoDup_fst_map_to_list.
    - intros f Hf. rewrite Hperm in Hf.
      apply list_elem_of_fmap in Hf as ([g e] & -> & Hge).
      apply elem_of_map_to_list in Hge. unfold Sweep.entry_of. rewrite Hes. simpl.
      by exists e.
    - intros f m' _ Hent. rewrite (entry_of_tree dir d d0) in Hent by done.
      rewrite Hc. by apply (Hyoung f).
    - done.
    - rewrite Hperm. apply list_elem_of_fmap. exists (file, Sweep.File m). split; [done|].
      apply elem_of_map_to_list. rewrite <- (entry_of_tree dir d d0) in Hm by done.
      unfold Sweep.entry_of in Hm. rewrite Hes in Hm. done.
    - by rewrite (entry_of_tree dir d d0).
    - rewrite Hc. apply (is_old_later (Sweep.clock d (Sweep.ticks d))); [|done].
      by apply Hclock. }
  assert (exists es, Sweep.tree d !! dir = Some es) as [es Hes].
  { unfold Sweep.entry_of in Hm. destruct (Sweep.tree d !! dir) as [es|]; [by exists es|done]. }
  enough (Sweep.entry_of dir file d2 = None) as -> by done.
  destruct Hdir as [-> | ->].
  - rewrite (entry_of_tree "uploads" d1 d2) by by apply Hoth2.
    by apply (Hwalk d es).
  - apply (Hwalk d1 es); [done|done| |by apply Hoth1|done].
    by rewrite Hoth1.
Qed.

Lemma sample_disk_downloads (sub : string) (e : Sweep.entry) :
  Sweep.entry_of "downloads" sub sample_disk = Some e ->
  e = Sweep.File (1 # 2)%Q \/ e = Sweep.Directory (inject_Z 4500000).
Proof.
  unfold Sweep.entry_of.
  replace (Sweep.tree sample_disk !! "downloads")
    with (Some (<["merged-1.pdf" := Sweep.File (1 # 2)%Q]>
                  (<["keep" := Sweep.Directory (inject_Z 4500000)]>
                     (∅ : gmap string Sweep.entry))))
    by (vm_compute; reflexivity).
  simpl. rewrite lookup_insert. destruct (decide ("merged-1.pdf" = sub)); [left; congruence|].
  rewrite lookup_insert. destruct (decide ("keep" = sub)); [right; congruence|].
  by rewrite lookup_empty.
Qed.

Lemma cleanup_removes_old_files_witness :
  Sweep.mtime_of "downloads" "merged-1.pdf" (Sweep.cleanupOldFiles reverse sample_disk) = None.
Proof.
  apply (cleanup_removes_old_files reverse sample_disk "downloads" "merged-1.pdf" (1 # 2)%Q).
  - intros names. apply reverse_Permutation.
  - intros i j Hij. unfold sample_disk, late_clock. simpl. lia.
  - by right.
  - reflexivity.
  - vm_compute. reflexivity.
  - intros sub m' Hsub. apply sample_disk_downloads in Hsub as [Hsub|Hsub];
      [discriminate Hsub|].
    injection Hsub as ->. vm_compute. discriminate.
Defined.

(** A turn that throws ends the sweep of its directory.  When the
    listing of uploads or of downloads reaches a name that is no longer
    there (a request removed it after the listing was read), or a
    subdirectory older than an hour (which [unlink] refuses), the
    exception leaves the loop: every entry that the listing does not
    name before that point stays, however old it is. *)
Theorem cleanup_stops_at_failing_entry (listing : list string -> list string)
    (d : Sweep.disk) (dir : string) (before : list string) (stop : string)
    (after : list string) :
  (forall i j : nat, (i <= j)%nat -> Sweep.clock d i <= Sweep.clock d j) ->
  dir = "uploads" \/ dir = "downloads" ->
  Sweep.readdir listing dir d = Returns (before ++ stop :: after) ->
  Sweep.entry_of dir stop d = None
  \/ (exists m, Sweep.entry_of dir stop d = Some (Sweep.Directory m)
               /\ Sweep.is_old (Sweep.clock d (Sweep.ticks d)) m = true) ->
  forall file, file ∉ before ->
    Sweep.entry_of dir file (Sweep.cleanupOldFiles listing d) = Sweep.entry_of dir file d.
Proof.
  intros Hclock Hdir Hlist Hstop file Hfile.
  rewrite cleanup_two_sweeps.
  destruct (sweep_dir_effect listing "uploads" d) as (Hc1 & Ht1 & Hoth1 & _).
  set (d1 := Sweep.sweep_dir listing "uploads" d) in *.
  destruct (sweep_dir_effect listing "downloads" d1) as (Hc2 & Ht2 & Hoth2 & _).
  set (d2 := Sweep.sweep_dir listing "downloads" d1) in *.
  assert (Hwalk : forall d0,
            Sweep.clock d0 = Sweep.clock d ->
            (Sweep.ticks d <= Sweep.ticks d0)%nat ->
            Sweep.tree d0 !! dir = Sweep.tree d !! dir ->
            Sweep.entry_of dir file (Sweep.sweep_dir listing dir d0)
            = Sweep.entry_of dir file d).
  { intros d0 Hc Ht Hsame. unfold Sweep.sweep_dir.
    assert (Sweep.readdir listing dir d0 = Returns (before ++ stop :: after)) as ->.
    { rewrite <- Hlist. unfold Sweep.readdir. by rewrite Hsame. }
    rewrite sweep_files_stop; [by apply entry_of_tree| | |done].
    - rewrite Hc. exact Hclock.
    - rewrite (entry_of_tree dir d d0), Hc by done.
      destruct Hstop as [?|(m & ? & Hold)]; [by left|right]. exists m. split; [done|].
      apply (is_old_later (Sweep.clock d (Sweep.ticks d))); [|done]. by apply Hclock. }
  destruct Hdir as [-> | ->].
  - rewrite (entry_of_tree "uploads" d1 d2) by by apply Hoth2. by apply Hwalk.
  - apply Hwalk; [done|done|by apply Hoth1].
Qed.

Lemma cleanup_stops_at_failing_entry_witness :
  Sweep.entry_of "downloads" "merged-1.pdf"
    (Sweep.cleanupOldFiles (fun _ => ["keep"; "merged-1.pdf"]) stale_disk)
  = Some (Sweep.File (1 # 2)%Q).
Proof.
  apply (cleanup_stops_at_failing_entry (fun _ => ["keep"; "merged-1.pdf"]) stale_disk
           "downloads" [] "keep" ["merged-1.pdf"]).
  - intros i j Hij. unfold stale_disk, late_clock. simpl. lia.
  - by right.
  - reflexivity.
  - right. exists (inject_Z 0). split; reflexivity.
  - apply not_elem_of_nil.
Defined.

End SweepTheorems.

(** * The security endpoint *)

Section SecurityFacts.

Context {Page : Type} `{!Libraries Page}.
Variable getSize : Page -> QArith_base.Q * QArith_base.Q.
Variable drawText : string -> DrawText.options -> Page -> error + Page.

Implicit Types (w : world Page) (pages : list Page).

Lemma draw_on_pages_run text options pages stamped w :
  Forall2 (fun page page' => drawText text options page = inr page') pages stamped ->
  draw_on_pages drawText text options pages w = (Returns stamped, w).
Proof.
  induction 1 as [|page page' pages stamped Hpage _ IH]; simpl; [done|].
  rewrite Hpage. unfold bind. by rewrite IH.
Qed.

Lemma draw_on_pages_throws text options good stamped bad rest e w :
  Forall2 (fun page page' => drawText text options page = inr page') good stamped ->
  drawText text options bad = inl e ->
  draw_on_pages drawText text options (good ++ bad :: rest) w = (Throws e, w).
Proof.
  intros Hgood Hbad. induction Hgood as [|page page' good stamped Hpage _ IH]; simpl.
  - by rewrite Hbad.
  - rewrite Hpage. unfold bind. by rewrite IH.
Qed.

(** Drawing touches no file and does not read the clock. *)
Lemma draw_on_pages_cases text options pages w :
  (exists stamped,
     Forall2 (fun page page' => drawText text options page = inr page') pages stamped
     /\ draw_on_pages drawText text options pages w = (Returns stamped, w))
  \/ (exists e, draw_on_pages drawText text options pages w = (Throws e, w)).
Proof.
  induction pages as [|page pages IH]; simpl.
  - left. exists []. by split.
  - destruct (drawText text options page) as [e|page'] eqn:Hpage.
    + right. by exists e.
    + unfold bind. destruct IH as [(stamped & Hall & ->) | (e & ->)].
      * left. exists (page' :: stamped). split; [by constructor|done].
      * right. by exists e.
Qed.

(** Loading touches no file and does not read the clock. *)
Lemma PDFDocument_load_cases (bytes : blob Page) w :
  (exists pdfDoc, PDFDocument_load bytes w = (Returns pdfDoc, w))
  \/ PDFDocument_load bytes w = (Throws InvalidPDF, w).
Proof. destruct bytes; [left|left|right|right]; by eauto. Qed.

(** The watermark branch either writes the one output file or throws
    before it has written anything. *)
Lemma watermark_cases text (pdfDoc : document Page) outputPath w :
  (exists first others stamped,
     pdfDoc = Catalog (first :: others)
     /\ Forall2 (fun page page' =>
                   drawText text
                     (watermark_options (getSize first).1 (getSize first).2) page
                   = inr page') (first :: others) stamped
     /\ watermark getSize drawText text pdfDoc outputPath w
        = (Returns tt, World (<[outputPath := PdfBytes stamped]> (files w))
                         (clock w) (ticks w)))
  \/ (exists e, watermark getSize drawText text pdfDoc outputPath w = (Throws e, w)).
Proof.
  unfold watermark. destruct pdfDoc as [[|first others]|].
  - right. by exists (TypeError "getSize").
  - destruct (getSize first) as [width height] eqn:Hsize.
    destruct (draw_on_pages_cases text (watermark_options width height) (first :: others) w)
      as [(stamped & Hall & Hrun) | (e & Hrun)].
    + left. exists first, others, stamped. split; [done|].
      split; [by rewrite Hsize|].
      unfold bind at 1. cbn [getPages ret lookup list_lookup]. rewrite Hsize.
      unfold bind. rewrite Hrun.
      apply Forall2_cons_inv_l in Hall as (page' & stamped' & _ & _ & ->). done.
    + right. exists e.
      unfold bind at 1. cbn [getPages ret lookup list_lookup]. rewrite Hsize.
      unfold bind. by rewrite Hrun.
  - right. by exists (TypeError "Pages").
Qed.

End SecurityFacts.

(** ** A request that fails changes no file *)

Local Ltac refused :=
  eexists _, _; split; [reflexivity | intros _; reflexivity].

(** The security handler answers every request, and whenever the answer
    is not a success (no upload, an upload that is missing or is not a
    PDF, the action [encrypt], a watermark on a document without pages
    or on a bare header, a text that cannot be drawn) the files are
    exactly as before: the upload is still in [uploads] and nothing was
    written. *)
Theorem security_failure_changes_nothing {Page : Type} `{!Libraries Page}
    (getSize : Page -> QArith_base.Q * QArith_base.Q)
    (drawText : string -> DrawText.options -> Page -> error + Page)
    (body : security_body) (req_file : option multer_file) (w : world Page) :
  exists answer w',
    security_handler getSize drawText body req_file w = (Returns answer, w')
    /\ ((forall fileName downloadUrl message,
           answer <> Success fileName downloadUrl message) ->
        files w' = files w).
Proof.
  unfold security_handler, try_catch. destruct req_file as [file|]; [|refused].
  unfold bind at 1. unfold readFile.
  destruct (files w !! path file) as [bytes|] eqn:Hfile; [|refused].
  unfold bind at 1.
  destruct (PDFDocument_load_cases bytes w) as [[pdfDoc ->] | ->]; [|refused].
  unfold bind at 1, Date_now.
  destruct (JS.strict_eq (securityAction body) "encrypt"); [refused|].
  set (w1 := World (files w) (clock w) (S (ticks w))).
  set (outputPath := JS.path_join "downloads" _).
  unfold bind at 1.
  destruct (JS.strict_eq (securityAction body) "watermark" && JS.truthy (watermarkText body)).
  - destruct (watermark_cases getSize drawText (default "" (watermarkText body))
                pdfDoc outputPath w1)
      as [(first & others & stamped & _ & _ & ->) | (e & ->)]; [|refused].
    unfold bind, unlink. subst w1. cbn [files].
    rewrite lookup_insert_ne by apply downloads_not_uploads. rewrite Hfile.
    eexists _, _. split; [reflexivity|]. intros Hno. by edestruct Hno.
  - unfold ret at 1, bind, unlink. subst w1. cbn [files]. rewrite Hfile.
    eexists _, _. split; [reflexivity|]. intros Hno. by edestruct Hno.
Qed.

(** ** A success that wrote nothing *)



(** ** The watermark *)

(** A watermark request with a non-empty text on a PDF with at least one
    page, when the text can be drawn on every page: the output
    [watermark-<now>.pdf] holds the same pages in the same order, each
    drawn on with the same options, which are computed from the size of
    the first page alone; the upload is deleted and no other file
    changes. *)
Theorem watermark_stamps_every_page {Page : Type} `{!Libraries Page}
    (getSize : Page -> QArith_base.Q * QArith_base.Q)
    (drawText : string -> DrawText.options -> Page -> error + Page)
    (first : Page) (others stamped : list Page) (file : multer_file)
    (body : security_body) (text : string) (w : world Page) :
  files w !! path file = Some (PdfBytes (first :: others)) ->
  securityAction body = Some "watermark" ->
  watermarkText body = Some text ->
  text <> "" ->
  Forall2 (fun page page' =>
             drawText text (watermark_options (getSize first).1 (getSize first).2) page
             = inr page')
    (first :: others) stamped ->
  let fileName := "watermark-" +:+ JS.num_to_string (clock w (ticks w)) +:+ ".pdf" in
  exists w',
    security_handler getSize drawText body (Some file) w
    = (Returns (Success fileName ("/downloads/" +:+ fileName)
                  "watermark applied successfully"), w')
    /\ files w' !! JS.path_join "downloads" fileName = Some (PdfBytes stamped)
    /\ files w' !! path file = None
    /\ (forall p, p <> path file -> p <> JS.path_join "downloads" fileName ->
          files w' !! p = files w !! p).
Proof.
  intros Hfile Haction Htext Hnonempty Hall fileName.
  exists (World (delete (path file)
                   (<[JS.path_join "downloads" fileName := PdfBytes stamped]> (files w)))
            (clock w) (S (ticks w))).
  split; [|split; [|split]].
  - unfold security_handler, try_catch. unfold bind at 1. unfold readFile. rewrite Hfile.
    unfold bind at 1. cbn [PDFDocument_load ret]. unfold bind at 1. cbn [Date_now].
    rewrite Haction, Htext. cbn [template default].
    assert (JS.truthy (Some text) = true) as -> by (by destruct text).
    assert (JS.strict_eq (Some "watermark" : option string) "encrypt" = false) as ->
      by reflexivity.
    assert (JS.strict_eq (Some "watermark" : option string) "watermark" = true) as ->
      by reflexivity.
    cbn [andb].
    unfold bind at 1. unfold watermark. unfold bind at 1. cbn [getPages ret lookup list_lookup].
    destruct (getSize first) as [width height]. cbn [fst snd] in Hall.
    unfold bind at 1.
    rewrite (draw_on_pages_run drawText _ _ _ stamped _ Hall).
    apply Forall2_cons_inv_l in Hall as (page' & stamped' & _ & _ & ->).
    unfold bind, save, ret, writeFile, unlink. cbn [files clock ticks with_default_page].
    rewrite lookup_insert_ne by apply downloads_not_uploads. by rewrite Hfile.
  - cbn [files]. rewrite lookup_delete_ne; [apply lookup_insert_eq|].
    intros Heq. symmetry in Heq. by apply downloads_not_uploads in Heq.
  - cbn [files]. apply lookup_delete_eq.
  - intros p Hup Hout. cbn [files]. rewrite lookup_delete_ne by done.
    by rewrite lookup_insert_ne.
Qed.

Lemma watermark_stamps_every_page_witness :
  exists w',
    security_handler
      (fun page : Z => (QArith_base.inject_Z page, QArith_base.inject_Z 800))
      (fun text options page =>
         inr (page + QArith_base.Qnum (DrawText.x options)))
      (SecurityBody (Some "watermark") None (Some "DRAFT"))
      (Some sample_upload) sample_world
    = (Returns (Success "watermark-1000.pdf" "/downloads/watermark-1000.pdf"
                  "watermark applied successfully"), w')
    /\ files w' !! "downloads/watermark-1000.pdf"
       = Some (PdfBytes ((fun page => page - 100) <$> sample_doc)).
Proof.
  destruct (watermark_stamps_every_page
              (fun page : Z => (QArith_base.inject_Z page, QArith_base.inject_Z 800))
              (fun text options page =>
                 inr (page + QArith_base.Qnum (DrawText.x options)))
              100 (seqZ 101 9) ((fun page => page - 100) <$> sample_doc)
              sample_upload (SecurityBody (Some "watermark") None (Some "DRAFT"))
              "DRAFT" sample_world)
    as (w' & Hrun & Hout & _).
  - reflexivity.
  - reflexivity.
  - reflexivity.
  - discriminate.
  - vm_compute. repeat constructor.
  - exists w'. split; [exact Hrun | exact Hout].
Defined.

(** A watermark on a PDF without pages, or with a text that cannot be
    drawn on one of the pages, is answered with a 500 carrying the
    exception; no page drawn on before it is saved. *)
Theorem watermark_that_throws {Page : Type} `{!Libraries Page}
    (getSize : Page -> QArith_base.Q * QArith_base.Q)
    (drawText : string -> DrawText.options -> Page -> error + Page)
    (pdfDoc : list Page) (file : multer_file)
    (body : security_body) (text : string) (w : world Page) :
  files w !! path file = Some (PdfBytes pdfDoc) ->
  securityAction body = Some "watermark" ->
  watermarkText body = Some text ->
  text <> "" ->
  let w' := World (files w) (clock w) (S (ticks w)) in
  (pdfDoc = [] ->
   security_handler getSize drawText body (Some file) w
   = (Returns (ServerError (TypeError "getSize")), w'))
  /\ (forall first good stamped bad rest e,
        pdfDoc = good ++ bad :: rest ->
        head pdfDoc = Some first ->
        Forall2 (fun page page' =>
                   drawText text
                     (watermark_options (getSize first).1 (getSize first).2) page
                   = inr page') good stamped ->
        drawText text (watermark_options (getSize first).1 (getSize first).2) bad
        = inl e ->
        security_handler getSize drawText body (Some file) w
        = (Returns (ServerError e), w')).
Proof.
  intros Hfile Haction Htext Hnonempty w'.
  assert (Hhead : forall e,
            watermark getSize drawText text (Catalog pdfDoc)
              (JS.path_join "downloads"
                 ("watermark-" +:+ JS.num_to_string (clock w (ticks w)) +:+ ".pdf")) w'
            = (Throws e, w') ->
            security_handler getSize drawText body (Some file) w
            = (Returns (ServerError e), w')).
  { intros e Hthrows.
    unfold security_handler, try_catch. unfold bind at 1. unfold readFile. rewrite Hfile.
    unfold bind at 1. cbn [PDFDocument_load ret]. unfold bind at 1. cbn [Date_now].
    rewrite Haction, Htext. cbn [template default].
    assert (JS.truthy (Some text) = true) as -> by (by destruct text).
    assert (JS.strict_eq (Some "watermark" : option string) "encrypt" = false) as ->
      by reflexivity.
    assert (JS.strict_eq (Some "watermark" : option string) "watermark" = true) as ->
      by reflexivity.
    cbn [andb].
    unfold bind at 1.
    match goal with
    | |- context [watermark ?g ?d ?t ?doc ?out ?w0] =>
        by replace (watermark g d t doc out w0) with (@Throws unit e, w')
    end. }
  split.
  - intros ->. by apply Hhead.
  - intros first good stamped bad rest e -> Hfirst Hgood Hbad. apply Hhead.
    unfold watermark. unfold bind at 1. cbn [getPages ret].
    assert ((good ++ bad :: rest) !! 0%nat = Some first) as ->.
    { by rewrite <- head_lookup. }
    destruct (getSize first) as [width height]. cbn [fst snd] in Hgood, Hbad.
    unfold bind at 1.
    by rewrite (draw_on_pages_throws drawText _ _ good stamped bad rest e _ Hgood Hbad).
Qed.

Lemma watermark_that_throws_witness :
  security_handler
    (fun page : Z => (QArith_base.inject_Z 600, QArith_base.inject_Z 800))
    (fun text options page => inr page)
    (SecurityBody (Some "watermark") None (Some "DRAFT"))
    (Some (MulterFile "1-empty.pdf" "empty.pdf"))
    (World {[ "uploads/1-empty.pdf" := PdfBytes [] ]} sample_clock 0)
  = (Returns (ServerError (TypeError "getSize")),
     World {[ "uploads/1-empty.pdf" := PdfBytes [] ]} sample_clock 1 : world Z).
Proof.
  destruct (watermark_that_throws
              (fun page : Z => (QArith_base.inject_Z 600, QArith_base.inject_Z 800))
              (fun text options page => inr page)
              [] (MulterFile "1-empty.pdf" "empty.pdf")
              (SecurityBody (Some "watermark") None (Some "DRAFT")) "DRAFT"
              (World {[ "uploads/1-empty.pdf" := PdfBytes [] ]} sample_clock 0))
    as [Hempty _].
  - reflexivity.
  - reflexivity.
  - reflexivity.
  - discriminate.
  - by apply Hempty.
Defined.

(** ** Encryption is refused late *)

(** The action [encrypt] is looked at only after the upload has been
    read and loaded, and before any page is looked at.  With bytes that
    pdf-lib loads, a PDF or a bare header alike, the answer is the 400
    of the handler and the upload stays in [uploads]; with an upload
    that is missing, or whose bytes pdf-lib does not load, the answer is
    a 500 instead. *)
Theorem encrypt_is_refused_after_loading {Page : Type} `{!Libraries Page}
    (getSize : Page -> QArith_base.Q * QArith_base.Q)
    (drawText : string -> DrawText.options -> Page -> error + Page)
    (file : multer_file) (body : security_body) (w : world Page) :
  securityAction body = Some "encrypt" ->
  security_handler getSize drawText body (Some file) w
  = match files w !! path file with
    | Some (PdfBytes _) | Some HeaderBytes =>
        (Returns (BadRequest
                    "PDF encryption requires additional setup with qpdf or similar tools"),
         World (files w) (clock w) (S (ticks w)))
    | Some (ZipBytes _) | Some (RawBytes _) => (Returns (ServerError InvalidPDF), w)
    | None => (Returns (ServerError (ENOENT (path file))), w)
    end.
Proof.
  intros Haction. unfold security_handler, try_catch, bind, readFile.
  destruct (files w !! path file) as [[pdfDoc| |entries|raw]|]; [| |done..].
  - cbn [PDFDocument_load ret Date_now]. by rewrite Haction.
  - cbn [PDFDocument_load ret Date_now]. by rewrite Haction.
Qed.

Lemma encrypt_is_refused_after_loading_witness :
  security_handler
    (fun page : Z => (QArith_base.inject_Z 600, QArith_base.inject_Z 800))
    (fun text options page => inr page)
    (SecurityBody (Some "encrypt") (Some "secret") None)
    (Some (MulterFile "1-header.pdf" "header.pdf"))
    (World {[ "uploads/1-header.pdf" := HeaderBytes ]} sample_clock 0)
  = (Returns (BadRequest
                "PDF encryption requires additional setup with qpdf or similar tools"),
     World {[ "uploads/1-header.pdf" := HeaderBytes ]} sample_clock 1 : world Z).
Proof.
  etrans.
  - apply (encrypt_is_refused_after_loading
             (fun page : Z => (QArith_base.inject_Z 600, QArith_base.inject_Z 800))
             (fun text options page => inr page)
             (MulterFile "1-header.pdf" "header.pdf")
             (SecurityBody (Some "encrypt") (Some "secret") None)
             (World {[ "uploads/1-header.pdf" := HeaderBytes ]} sample_clock 0)).
    reflexivity.
  - reflexivity.
Defined.
